(** * MinorOne: the real-estate spatial index of [project.cpp]

    A shallow embedding of the core of [project.cpp]: [Rectangle] with its
    intersection test, [Property], [RTreeNode] and [RTree] with [insert],
    [query] and [queryNearLocation].

    Modelling conventions.
    - A C++ [double] is an IEEE 754 binary64 number: Rocq's primitive
      [float], with the kernel's own arithmetic, comparison and square root.
      Every operation rounds to binary64 (no wider intermediate results).
    - A C++ [int] is a [Z]; the only arithmetic on [int]s in the core is the
      conversion from and to [double] inside [calculateDistance].
    - A [Property*] is an address; the [Store] says which [Property] object
      lives at each address.  No function of the core writes through a
      [Property*], so one store is in force across a whole run.  Two
      pointers are the same listing exactly when the addresses are equal.
    - An [RTreeNode*] held in [children] is owned by its parent alone (the
      node is created by [new] inside [insert] and never shared), so the
      node graph is a tree and is modelled as an inductive type.
    - A [std::vector] is a [list]; [push_back] appends at the end; a
      range-based [for] loop is a [fold_left] over the loop state. *)

From Stdlib Require Import ZArith Bool List String Lia QArith.
From Stdlib Require Import Floats.
From Stdlib Require Uint63.
Import ListNotations.

Set Warnings "-inexact-float,-register-all".

(** ** C++ operators and library functions on [double] and [int] *)

Module Cpp.

(** [a < b], [a > b], [a <= b], [a >= b] on doubles.  IEEE 754 defines
    [a > b] as [b < a]; every comparison with a NaN operand is false. *)
Definition lt (a b : float) : bool := PrimFloat.ltb a b.
Definition gt (a b : float) : bool := PrimFloat.ltb b a.
Definition le (a b : float) : bool := PrimFloat.leb a b.
Definition ge (a b : float) : bool := PrimFloat.leb b a.

(** [std::min(a, b)] is [(b < a) ? b : a]; [std::max(a, b)] is
    [(a < b) ? b : a]. *)
Definition std_min (a b : float) : float := if lt b a then b else a.
Definition std_max (a b : float) : float := if lt a b then b else a.

(** [pow(x, 2)]: the square of [x], rounded once (the product [x * x],
    which is also what compilers emit for an exponent of 2). *)
Definition pow2 (x : float) : float := PrimFloat.mul x x.

Definition sqrt (x : float) : float := PrimFloat.sqrt x.

(** The range of a 32-bit [int]. *)
Definition INT_MIN : Z := -2147483648.
Definition INT_MAX : Z := 2147483647.

(** The integer part of a binary64 value, fraction discarded (rounding
    toward zero); [None] for a NaN or an infinity.  A finite non-zero
    value is [(-1)^s * m * 2^e]; [Z.shiftl m e] is [m * 2^e] for [0 <= e]
    and the quotient of [m] by [2^(-e)] for [e < 0]. *)
Definition SFtrunc (f : spec_float) : option Z :=
  match f with
  | S754_zero _ => Some 0%Z
  | S754_finite s m e =>
      let a := Z.shiftl (Zpos m) e in
      Some (if s then (- a)%Z else a)
  | S754_infinity _ | S754_nan => None
  end.

(** The conversion [int i = d;] of a [double] to an [int]: the value
    truncated toward zero when that fits an [int].  C++ leaves the
    conversion undefined otherwise (NaN, infinity, out of range); the
    model takes what the x86-64 conversion instruction delivers there,
    the "integer indefinite" value [INT_MIN]. *)
Definition double_to_int (d : float) : Z :=
  match SFtrunc (Prim2SF d) with
  | Some z => if ((INT_MIN <=? z) && (z <=? INT_MAX))%Z then z else INT_MIN
  | None => INT_MIN
  end.

(** The conversion of an [int] to a [double] (exact: every [int] is a
    binary64 number). *)
Definition int_to_double (i : Z) : float :=
  if (i <? 0)%Z
  then PrimFloat.opp (PrimFloat.of_uint63 (Uint63.of_Z (- i)))
  else PrimFloat.of_uint63 (Uint63.of_Z i).

End Cpp.

(** ** Rectangle *)

Record Rectangle : Set := mkRectangle {
  x_min : float;
  y_min : float;
  x_max : float;
  y_max : float
}.

(** [Rectangle::intersects]: [this] is the first argument. *)
Definition intersects (this other : Rectangle) : bool :=
  negb (Cpp.gt (x_min this) (x_max other)
        || Cpp.lt (x_max this) (x_min other)
        || Cpp.gt (y_min this) (y_max other)
        || Cpp.lt (y_max this) (y_min other)).

(** ** Property *)

Record Property : Set := mkProperty {
  location : string;
  price : float;
  area : float;
  bedrooms : Z;
  bbox : Rectangle
}.

(** A [Property*] and the objects it may point to. *)
Definition PropertyPtr : Set := nat.
Definition Store : Set := PropertyPtr -> Property.

(** ** RTreeNode *)

Inductive RTreeNode : Set := mkRTreeNode {
  children : list RTreeNode;
  leaf_properties : list PropertyPtr;
  bounding_box : Rectangle;
  is_leaf : bool
}.

(** The constructor [RTreeNode(bbox, leaf = false)]: both vectors empty. *)
Definition RTreeNode_new (bbox : Rectangle) (leaf : bool) : RTreeNode :=
  mkRTreeNode [] [] bbox leaf.

(** One round of either loop of [updateBoundingBox]: the four running
    extrema folded with one more box. *)
Definition extend_box (acc box : Rectangle) : Rectangle :=
  mkRectangle (Cpp.std_min (x_min acc) (x_min box))
              (Cpp.std_min (y_min acc) (y_min box))
              (Cpp.std_max (x_max acc) (x_max box))
              (Cpp.std_max (y_max acc) (y_max box)).

(** [RTreeNode::updateBoundingBox]. *)
Definition updateBoundingBox (h : Store) (this : RTreeNode) : RTreeNode :=
  match children this, leaf_properties this with
  | [], [] => this
  | _, _ =>
      let box :=
        if is_leaf this
        then fold_left (fun acc prop => extend_box acc (bbox (h prop)))
                       (leaf_properties this) (bounding_box this)
        else fold_left (fun acc node => extend_box acc (bounding_box node))
                       (children this) (bounding_box this) in
      mkRTreeNode (children this) (leaf_properties this) box (is_leaf this)
  end.

(** [RTreeNode::insert]. *)
Definition insert (h : Store) (this : RTreeNode) (child : PropertyPtr)
  : RTreeNode :=
  if is_leaf this
  then mkRTreeNode (children this) (leaf_properties this ++ [child])
                   (bounding_box this) (is_leaf this)
  else updateBoundingBox h
         (mkRTreeNode (children this ++ [RTreeNode_new (bbox (h child)) false])
                      (leaf_properties this)
                      (bounding_box this) (is_leaf this)).

(** ** RTree *)

Record RTree : Set := mkRTree { root : RTreeNode }.

(** The box the constructor gives the root. *)
Definition initial_box : Rectangle := mkRectangle 0 0 100 100.

(** [RTree::RTree]. *)
Definition RTree_new : RTree := mkRTree (RTreeNode_new initial_box true).

(** [RTree::insert]. *)
Definition RTree_insert (h : Store) (t : RTree) (prop : PropertyPtr) : RTree :=
  mkRTree (insert h (root t) prop).

(** The body of the leaf loop of [queryRecursive]. *)
Definition visit_property (h : Store) (range : Rectangle)
           (results : list PropertyPtr) (prop : PropertyPtr)
  : list PropertyPtr :=
  if intersects range (bbox (h prop)) then results ++ [prop] else results.

(** [RTree::queryRecursive]: [results] is the vector passed by reference,
    returned as it stands when the call ends. *)
Fixpoint queryRecursive (h : Store) (node : RTreeNode) (range : Rectangle)
         (results : list PropertyPtr) {struct node} : list PropertyPtr :=
  match node with
  | mkRTreeNode node_children node_leaf_properties node_box node_is_leaf =>
      if negb (intersects node_box range) then results
      else if node_is_leaf
      then fold_left (visit_property h range) node_leaf_properties results
      else fold_left (fun res child => queryRecursive h child range res)
                     node_children results
  end.

(** [RTree::query]. *)
Definition query (h : Store) (t : RTree) (range : Rectangle)
  : list PropertyPtr :=
  queryRecursive h (root t) range [].

(** [RTree::calculateDistance]: the square root is stored in an [int] and
    the [int] is returned as a [double]. *)
Definition calculateDistance (x1 y1 x2 y2 : float) : float :=
  let distance : Z :=
    Cpp.double_to_int
      (Cpp.sqrt (Cpp.pow2 (x2 - x1) + Cpp.pow2 (y2 - y1)))%float in
  Cpp.int_to_double distance.

(** The body of the loop of [queryNearLocation]. *)
Definition visit_candidate (h : Store) (x y distance_km max_price min_area : float)
           (min_bedrooms : Z)
           (results : list PropertyPtr) (prop : PropertyPtr)
  : list PropertyPtr :=
  let b := bbox (h prop) in
  let dist :=
    calculateDistance x y ((x_min b + x_max b) / 2)%float
                          ((y_min b + y_max b) / 2)%float in
  if Cpp.le dist distance_km
     && Cpp.le (price (h prop)) max_price
     && Cpp.ge (area (h prop)) min_area
     && (bedrooms (h prop) >=? min_bedrooms)%Z
  then results ++ [prop]
  else results.

(** [RTree::queryNearLocation]. *)
Definition queryNearLocation (h : Store) (t : RTree)
           (x y distance_km max_price min_area : float) (min_bedrooms : Z)
  : list PropertyPtr :=
  let search_area :=
    mkRectangle (x - distance_km)%float (y - distance_km)%float
                (x + distance_km)%float (y + distance_km)%float in
  let properties := query h t search_area in
  fold_left (visit_candidate h x y distance_km max_price min_area min_bedrooms)
            properties [].

(** The index after the calls [insert(p1); ...; insert(pn)] on a fresh
    [RTree]: every state the public interface can reach. *)
Definition insert_all (h : Store) (props : list PropertyPtr) : RTree :=
  fold_left (RTree_insert h) props RTree_new.

(** ** The specification's vocabulary

    The definitions below follow the words of the specification (sections
    4.1 and 4.4); the theorems compare them with the functions above.
    Two of them, [truncated_centroid_distance] and [kept], are the test
    of the code itself, with the distance held in an [int]; the truncated
    distance of the specification, which has no bound, is
    [spec_truncated_distance] further down. *)

(** "[a > b]" and "[a < b]" as IEEE 754 decides them: the outcome of the
    four-way comparison of [a] with [b] (less, equal, greater, unordered). *)
Definition ieee_gt (a b : float) : Prop := PrimFloat.compare a b = FGt.
Definition ieee_lt (a b : float) : Prop := PrimFloat.compare a b = FLt.

(** Separated along the x-axis or the y-axis. *)
Definition disjoint (a b : Rectangle) : Prop :=
  ieee_gt (x_min a) (x_max b) \/ ieee_lt (x_max a) (x_min b)
  \/ ieee_gt (y_min a) (y_max b) \/ ieee_lt (y_max a) (y_min b).

(** A listing matches a range query when its bbox intersects the range. *)
Definition matches (h : Store) (range : Rectangle) (p : PropertyPtr) : bool :=
  intersects range (bbox (h p)).

(** The centroid [((x_min+x_max)/2, (y_min+y_max)/2)] of a bbox. *)
Definition centroid (b : Rectangle) : float * float :=
  ((x_min b + x_max b) / 2, (y_min b + y_max b) / 2)%float.

(** The Euclidean distance from [(x, y)] to [(cx, cy)], in doubles. *)
Definition euclidean_distance (x y cx cy : float) : float :=
  Cpp.sqrt (Cpp.pow2 (cx - x) + Cpp.pow2 (cy - y))%float.

(** The distance from [(x, y)] to the centroid of [b] as the [int] that
    [calculateDistance] holds: the distance with its fraction discarded
    when that fits an [int], and [INT_MIN] otherwise (see
    [Cpp.double_to_int]). *)
Definition truncated_centroid_distance (x y : float) (b : Rectangle) : Z :=
  let (cx, cy) := centroid b in
  Cpp.double_to_int (euclidean_distance x y cx cy).

(** The test of the loop of [queryNearLocation] on one candidate: the
    [int] distance, as a double, is at most the radius, and price <=
    max_price, area >= min_area, bedrooms >= min_bedrooms. *)
Definition kept (h : Store) (x y radius max_price min_area : float)
           (min_bedrooms : Z) (p : PropertyPtr) : bool :=
  Cpp.le (Cpp.int_to_double (truncated_centroid_distance x y (bbox (h p))))
         radius
  && Cpp.le (price (h p)) max_price
  && Cpp.ge (area (h p)) min_area
  && (min_bedrooms <=? bedrooms (h p))%Z.

(** The square search rectangle [(x-radius, y-radius, x+radius, y+radius)]. *)
Definition search_square (x y radius : float) : Rectangle :=
  mkRectangle (x - radius) (y - radius) (x + radius) (y + radius).

(** [outer] covers [inner]: it reaches at least as far on all four sides. *)
Definition covers (outer inner : Rectangle) : bool :=
  Cpp.le (x_min outer) (x_min inner)
  && Cpp.le (y_min outer) (y_min inner)
  && Cpp.ge (x_max outer) (x_max inner)
  && Cpp.ge (y_max outer) (y_max inner).

(** The rectangle that is the whole plane. *)
Definition whole_plane : Rectangle :=
  mkRectangle neg_infinity neg_infinity infinity infinity.

(** ** Exact values

    The rational number a finite double stands for, used to speak of the
    true (unrounded) centroid distance. *)

Definition SF2Q (f : spec_float) : option Q :=
  match f with
  | S754_zero _ => Some 0%Q
  | S754_finite s m e =>
      let a := (inject_Z (Zpos m) * Qpower 2 e)%Q in
      Some (if s then (- a)%Q else a)
  | S754_infinity _ | S754_nan => None
  end.

Definition exact_value (d : float) : Q :=
  match SF2Q (Prim2SF d) with
  | Some q => q
  | None => 0%Q
  end.

Definition is_finite (d : float) : bool :=
  match SF2Q (Prim2SF d) with
  | Some _ => true
  | None => false
  end.

(** The square of the true distance from [(x, y)] to the true centroid of
    [b], computed without rounding. *)
Definition exact_sq_centroid_distance (x y : float) (b : Rectangle) : Q :=
  let cx := ((exact_value (x_min b) + exact_value (x_max b)) / 2)%Q in
  let cy := ((exact_value (y_min b) + exact_value (y_max b)) / 2)%Q in
  ((cx - exact_value x) * (cx - exact_value x)
   + (cy - exact_value y) * (cy - exact_value y))%Q.


(** ** Example data *)

Definition default_property : Property :=
  mkProperty "" 0 0 0 (mkRectangle 0 0 0 0).

(** A store with the given objects at the addresses 0, 1, 2, ... *)
Definition store_of (objects : list Property) : Store :=
  fun a => nth a objects default_property.

Definition listing_at (name : string) (b : Rectangle) : Property :=
  mkProperty name 100000 120 3 b.

(** One listing with bbox (10,10,20,20). *)
Definition store_roundtrip : Store :=
  store_of [listing_at "A" (mkRectangle 10 10 20 20)].

(** One listing outside the initial extent. *)
Definition store_outside : Store :=
  store_of [listing_at "far" (mkRectangle 150 150 160 160)].

(** Three listings inside the initial extent. *)
Definition store_three : Store :=
  store_of [listing_at "L1" (mkRectangle 10 10 20 20);
            listing_at "L2" (mkRectangle 60 60 70 70);
            listing_at "L3" (mkRectangle 30 30 40 40)].

(** Two listings priced 100000 whose centroids lie at distance 3 and at
    distance 7 from (0, 0); both bboxes reach into the square of radius 5
    around (0, 0). *)
Definition store_3_and_7 : Store :=
  store_of [listing_at "three" (mkRectangle 2 0 4 0);
            listing_at "seven" (mkRectangle 4 0 10 0)].

(** The same listing object inserted under two addresses would be two
    listings; here one address is handed to [insert] twice. *)
Definition twice : list PropertyPtr := [0%nat; 0%nat].


(** A listing whose centroid is (5.9, 0), in the same way. *)
Definition store_5_9 : Store :=
  store_of [listing_at "edge" (mkRectangle 4 0 (2 * 5.9 - 4) 0)].

(** ** The order of doubles

    Every double that is not a NaN has a rank, a triple of integers, and
    doubles compare as their ranks do lexicographically: by class
    (negative infinity, negative, zero, positive, positive infinity), then
    by exponent, then by mantissa. *)

Definition SFrank (f : spec_float) : option (Z * Z * Z) :=
  match f with
  | S754_nan => None
  | S754_infinity true => Some (-2, 0, 0)%Z
  | S754_finite true m e => Some (-1, - e, Zneg m)%Z
  | S754_zero _ => Some (0, 0, 0)%Z
  | S754_finite false m e => Some (1, e, Zpos m)%Z
  | S754_infinity false => Some (2, 0, 0)%Z
  end.

Definition rank (x : float) : option (Z * Z * Z) := SFrank (Prim2SF x).

Definition rank_compare (a b : Z * Z * Z) : comparison :=
  let '(a1, a2, a3) := a in
  let '(b1, b2, b3) := b in
  match (a1 ?= b1)%Z with
  | Eq => match (a2 ?= b2)%Z with
          | Eq => (a3 ?= b3)%Z
          | c => c
          end
  | c => c
  end.

Definition rank_lt (a b : Z * Z * Z) : Prop :=
  let '(a1, a2, a3) := a in
  let '(b1, b2, b3) := b in
  (a1 < b1 \/ (a1 = b1 /\ (a2 < b2 \/ (a2 = b2 /\ a3 < b3))))%Z.

Definition rank_le (a b : Z * Z * Z) : Prop := rank_lt a b \/ a = b.

(** ** Vocabulary for the bounding boxes *)

(** No coordinate of [r] is a NaN. *)
Definition no_nan (r : Rectangle) : bool :=
  negb (PrimFloat.is_nan (x_min r) || PrimFloat.is_nan (y_min r)
        || PrimFloat.is_nan (x_max r) || PrimFloat.is_nan (y_max r)).

(** The invariant the callers of the index are expected to keep:
    [x_min <= x_max] and [y_min <= y_max]. *)
Definition well_formed (r : Rectangle) : bool :=
  Cpp.le (x_min r) (x_max r) && Cpp.le (y_min r) (y_max r).

(** The point [(x, y)] lies in [r], borders included. *)
Definition contains (r : Rectangle) (x y : float) : bool :=
  Cpp.le (x_min r) x && Cpp.le x (x_max r)
  && Cpp.le (y_min r) y && Cpp.le y (y_max r).

(** One round of a running extremum: [b] replaces [acc] when it is
    better.  [std::min(acc, b)] is [pick Cpp.lt acc b] and
    [std::max(acc, b)] is [pick Cpp.gt acc b]. *)
Definition pick (better : float -> float -> bool) (acc b : float) : float :=
  if better b acc then b else acc.

(** The boxes [updateBoundingBox] folds into the box of a node: those of
    its listings for a leaf, those of its children otherwise. *)
Definition member_boxes (h : Store) (node : RTreeNode) : list Rectangle :=
  if is_leaf node
  then map (fun prop => bbox (h prop)) (leaf_properties node)
  else map bounding_box (children node).

(** The listings a traversal can meet below a node: those of the node
    itself for a leaf, those below its children otherwise. *)
Fixpoint stored (node : RTreeNode) : list PropertyPtr :=
  match node with
  | mkRTreeNode node_children node_leaf_properties _ node_is_leaf =>
      if node_is_leaf then node_leaf_properties
      else flat_map stored node_children
  end.

(** The bounding invariant: the box of a leaf covers the bbox of each of
    its listings, the box of an internal node covers the box of each
    child, and so on below. *)
Fixpoint well_bounded (h : Store) (node : RTreeNode) : bool :=
  match node with
  | mkRTreeNode node_children node_leaf_properties node_box node_is_leaf =>
      if node_is_leaf
      then forallb (fun prop => covers node_box (bbox (h prop)))
                   node_leaf_properties
      else forallb (fun child => covers node_box (bounding_box child)
                                 && well_bounded h child)
                   node_children
  end.

(** ** The insert branch of [main]

    [Property* prop = new Property(location, price, area, bedrooms, bbox);
    tree.insert(prop);] with the objects made by [new] kept in a list:
    the address of an object is its position, so [new] returns the length
    of the list and every address is handed out once. *)

Record Session : Set := mkSession {
  heap : list Property;
  tree : RTree
}.

Definition session_store (s : Session) : Store := store_of (heap s).

(** The state of [main] before the first command: [RTree tree;]. *)
Definition main_start : Session := mkSession [] RTree_new.

(** The three statements that end the branch [choice == 1], for the
    values the prompts delivered. *)
Definition main_insert (s : Session) (location : string)
           (price area : float) (bedrooms : Z)
           (x_min y_min x_max y_max : float) : Session :=
  let bbox := mkRectangle x_min y_min x_max y_max in
  let prop : PropertyPtr := List.length (heap s) in
  let heap' := heap s ++ [mkProperty location price area bedrooms bbox] in
  mkSession heap' (RTree_insert (store_of heap') (tree s) prop).

(** [tree.query(query_range)] of the branch [choice == 2]. *)
Definition main_query (s : Session) (q_x_min q_y_min q_x_max q_y_max : float)
  : list PropertyPtr :=
  query (session_store s) (tree s)
        (mkRectangle q_x_min q_y_min q_x_max q_y_max).

(** The insert branch taken once for each listing of [entered], in order. *)
Definition main_inserts (s : Session) (entered : list Property) : Session :=
  fold_left (fun s p =>
               main_insert s (location p) (price p) (area p) (bedrooms p)
                           (x_min (bbox p)) (y_min (bbox p))
                           (x_max (bbox p)) (y_max (bbox p)))
            entered s.

(** ** More example data *)

(** One listing inside the initial extent and one outside. *)
Definition store_mixed : Store :=
  store_of [listing_at "in" (mkRectangle 10 10 20 20);
            listing_at "out" (mkRectangle 150 150 160 160)].

(** A leaf that holds both listings of [store_mixed] under the box of a
    fresh root. *)
Definition leaf_mixed : RTreeNode :=
  mkRTreeNode [] [0%nat; 1%nat] initial_box true.

(** An internal node over two leaves, each box as tight as can be. *)
Definition tree_two_leaves : RTreeNode :=
  mkRTreeNode [mkRTreeNode [] [0%nat] (mkRectangle 10 10 20 20) true;
               mkRTreeNode [] [1%nat] (mkRectangle 150 150 160 160) true]
              [] (mkRectangle 10 10 160 160) false.

(** ** The truncated distance of the specification *)

(** The integer part of a double, fraction discarded, whatever its size;
    [None] for a NaN or an infinity. *)
Definition integer_part (d : float) : option Z := Cpp.SFtrunc (Prim2SF d).

(** The double nearest to the integer [z]: [z] itself whenever [z] is a
    double, as the integer part of a double always is. *)
Definition Z_to_double (z : Z) : float :=
  SF2Prim (binary_normalize prec emax z 0 false).

(** "The Euclidean distance from (x,y) to the candidate's bbox centroid",
    "truncated to an integer": the distance with its fraction discarded,
    however large.  A distance that is a NaN or an infinity has no
    integer part and is left as it is. *)
Definition spec_truncated_distance (x y : float) (b : Rectangle) : float :=
  let (cx, cy) := centroid b in
  let d := euclidean_distance x y cx cy in
  match integer_part d with
  | Some z => Z_to_double z
  | None => d
  end.

(** "A candidate is kept iff truncated_distance <= radius AND price <=
    max_price AND area >= min_area AND bedrooms >= min_bedrooms." *)
Definition spec_kept (h : Store) (x y radius max_price min_area : float)
           (min_bedrooms : Z) (p : PropertyPtr) : bool :=
  Cpp.le (spec_truncated_distance x y (bbox (h p))) radius
  && Cpp.le (price (h p)) max_price
  && Cpp.ge (area (h p)) min_area
  && (min_bedrooms <=? bedrooms (h p))%Z.

(** The truncated distance from [(x, y)] to the centroid of the listing
    [p] fits a 32-bit [int]. *)
Definition distance_fits_int (h : Store) (x y : float) (p : PropertyPtr)
  : Prop :=
  exists z : Z,
    (let (cx, cy) := centroid (bbox (h p)) in
     integer_part (euclidean_distance x y cx cy)) = Some z
    /\ (Cpp.INT_MIN <= z <= Cpp.INT_MAX)%Z.

(** A listing that reaches from x = 0 to x = 10^10: its bbox meets every
    square around (0, 0), and its centroid lies 5 * 10^9 away. *)
Definition store_far : Store :=
  store_of [listing_at "far" (mkRectangle 0 0 1e10 0)].

(** * Theorems *)

(** ** Loops that push the accepted elements *)

Section PushBackLoops.

Variable A : Type.
Variable accept : A -> bool.
Variable body : list A -> A -> list A.
Hypothesis body_pushes :
  forall res a, body res a = if accept a then res ++ [a] else res.

(** A loop that appends every accepted element to the result vector
    leaves the vector extended by the accepted elements, in order. *)
Lemma fold_left_push_back (l : list A) (acc : list A) :
  fold_left body l acc = acc ++ filter accept l.
Proof.
  revert acc; induction l as [|a l IH]; intro acc; simpl.
  - now rewrite app_nil_r.
  - rewrite IH, body_pushes. destruct (accept a); [|reflexivity].
    now rewrite <- app_assoc.
Qed.

End PushBackLoops.

Lemma filter_count_occ_le (f : nat -> bool) (l : list nat) (p : nat) :
  (count_occ Nat.eq_dec (filter f l) p <= count_occ Nat.eq_dec l p)%nat.
Proof.
  induction l as [|a l IH]; simpl; [lia|].
  destruct (f a); simpl; destruct (Nat.eq_dec a p); lia.
Qed.

(** ** Comparisons of doubles *)

Lemma SFcompare_swap (f1 f2 : spec_float) :
  SFcompare f2 f1 = option_map CompOpp (SFcompare f1 f2).
Proof.
  destruct f1 as [s1| s1| |s1 m1 e1], f2 as [s2| s2| |s2 m2 e2]; simpl;
    try reflexivity;
    try (destruct s1; reflexivity); try (destruct s2; reflexivity);
    try (destruct s1, s2; reflexivity).
  rewrite (Z.compare_antisym e1 e2).
  change (PosDef.Pos.compare_cont Eq m2 m1) with (Pos.compare m2 m1).
  change (PosDef.Pos.compare_cont Eq m1 m2) with (Pos.compare m1 m2).
  rewrite (Pos.compare_antisym m1 m2).
  destruct s1, s2; simpl; try reflexivity;
    destruct (e1 ?= e2)%Z; simpl; try reflexivity;
    destruct (m1 ?= m2)%positive; reflexivity.
Qed.

(** [a > b] of the model is the IEEE "greater than" of [a] and [b]. *)
Lemma gt_compare (a b : float) :
  Cpp.gt a b = true <-> PrimFloat.compare a b = FGt.
Proof.
  unfold Cpp.gt. rewrite FloatAxioms.ltb_spec, FloatAxioms.compare_spec.
  unfold SFltb. rewrite (SFcompare_swap (Prim2SF a) (Prim2SF b)).
  destruct (SFcompare (Prim2SF a) (Prim2SF b)) as [[| |]|]; simpl;
    split; congruence.
Qed.

(** [a < b] of the model is the IEEE "less than" of [a] and [b]. *)
Lemma lt_compare (a b : float) :
  Cpp.lt a b = true <-> PrimFloat.compare a b = FLt.
Proof.
  unfold Cpp.lt. rewrite FloatAxioms.ltb_spec, FloatAxioms.compare_spec.
  unfold SFltb.
  destruct (SFcompare (Prim2SF a) (Prim2SF b)) as [[| |]|]; simpl;
    split; congruence.
Qed.

(** Nothing lies beyond the infinities, not even a NaN. *)
Lemma lt_infinity_false (v : float) : Cpp.lt infinity v = false.
Proof.
  unfold Cpp.lt. rewrite FloatAxioms.ltb_spec.
  change (Prim2SF infinity) with (S754_infinity false).
  destruct (Prim2SF v) as [s|s| |s m e]; try reflexivity;
    destruct s; reflexivity.
Qed.

Lemma gt_neg_infinity_false (v : float) : Cpp.gt neg_infinity v = false.
Proof.
  unfold Cpp.gt. rewrite FloatAxioms.ltb_spec.
  change (Prim2SF neg_infinity) with (S754_infinity true).
  destruct (Prim2SF v) as [s|s| |s m e]; try reflexivity;
    destruct s; reflexivity.
Qed.

Lemma whole_plane_intersects (b : Rectangle) : intersects whole_plane b = true.
Proof.
  unfold intersects, whole_plane; simpl.
  now rewrite !gt_neg_infinity_false, !lt_infinity_false.
Qed.

(** ** Conversions between [double] and [int] *)



Lemma double_to_int_in_range (d : float) (z : Z) :
  Cpp.SFtrunc (Prim2SF d) = Some z ->
  (Cpp.INT_MIN <= z <= Cpp.INT_MAX)%Z ->
  Cpp.double_to_int d = z.
Proof.
  intros Hz [Hlo Hhi]. unfold Cpp.double_to_int. rewrite Hz.
  apply Z.leb_le in Hlo, Hhi. now rewrite Hlo, Hhi.
Qed.

(** ** The shape of the index *)

Lemma insert_leaf (h : Store) (this : RTreeNode) (child : PropertyPtr) :
  is_leaf this = true ->
  insert h this child
  = mkRTreeNode (children this) (leaf_properties this ++ [child])
                (bounding_box this) true.
Proof. intro Hleaf. unfold insert. now rewrite Hleaf. Qed.

Lemma fold_insert_leaf (h : Store) (props : list PropertyPtr) :
  forall (ch : list RTreeNode) (stored : list PropertyPtr) (box : Rectangle),
    fold_left (RTree_insert h) props (mkRTree (mkRTreeNode ch stored box true))
    = mkRTree (mkRTreeNode ch (stored ++ props) box true).
Proof.
  induction props as [|p props IH]; intros ch stored box; simpl.
  - now rewrite app_nil_r.
  - unfold RTree_insert at 2; simpl. unfold insert; simpl.
    rewrite IH. now rewrite <- app_assoc.
Qed.

(** Every state the public interface reaches: a leaf root with the
    constructor's box, holding the inserted pointers in insertion order. *)
Lemma insert_all_root (h : Store) (props : list PropertyPtr) :
  root (insert_all h props) = mkRTreeNode [] props initial_box true.
Proof.
  unfold insert_all, RTree_new, RTreeNode_new.
  now rewrite fold_insert_leaf.
Qed.

(** ** Range queries on a leaf root *)

Lemma queryRecursive_leaf (h : Store) (node : RTreeNode) (range : Rectangle)
      (results : list PropertyPtr) :
  is_leaf node = true ->
  queryRecursive h node range results
  = if intersects (bounding_box node) range
    then results ++ filter (matches h range) (leaf_properties node)
    else results.
Proof.
  destruct node as [ch props box leaf]; simpl. intros ->.
  destruct (intersects box range); simpl; [|reflexivity].
  apply fold_left_push_back. reflexivity.
Qed.

Lemma query_leaf (h : Store) (t : RTree) (range : Rectangle) :
  is_leaf (root t) = true ->
  query h t range
  = if intersects (bounding_box (root t)) range
    then filter (matches h range) (leaf_properties (root t))
    else [].
Proof.
  intro Hleaf. unfold query. rewrite queryRecursive_leaf by exact Hleaf.
  reflexivity.
Qed.

(** A query whose range misses the box of the root returns nothing,
    whatever the root holds. *)
Lemma query_pruned (h : Store) (t : RTree) (range : Rectangle) :
  intersects (bounding_box (root t)) range = false ->
  query h t range = [].
Proof.
  intro Hmiss. unfold query. destruct (root t) as [ch props box leaf].
  simpl in *. now rewrite Hmiss.
Qed.

Lemma query_insert_all (h : Store) (props : list PropertyPtr) (range : Rectangle) :
  query h (insert_all h props) range
  = if intersects initial_box range
    then filter (matches h range) props
    else [].
Proof.
  rewrite query_leaf; rewrite insert_all_root; reflexivity.
Qed.

(** A range that meets the box of the root and the bbox of every stored
    listing returns all of them. *)
Lemma query_all (h : Store) (props : list PropertyPtr) (range : Rectangle) :
  intersects initial_box range = true ->
  Forall (fun p => matches h range p = true) props ->
  query h (insert_all h props) range = props.
Proof.
  intros Hroot Hall. rewrite query_insert_all, Hroot.
  induction Hall as [|p props Hp _ IH]; simpl; [reflexivity|].
  now rewrite Hp, IH.
Qed.

(** ** Rectangle::intersects *)

Lemma intersects_disjoint (a b : Rectangle) :
  intersects a b = true <-> ~ disjoint a b.
Proof.
  unfold intersects, disjoint, ieee_gt, ieee_lt.
  rewrite <- !gt_compare, <- !lt_compare.
  rewrite negb_true_iff, !orb_false_iff.
  destruct (Cpp.gt (x_min a) (x_max b)), (Cpp.lt (x_max a) (x_min b)),
           (Cpp.gt (y_min a) (y_max b)), (Cpp.lt (y_max a) (y_min b));
    intuition congruence.
Qed.

(** C3.  [intersects(a, b)] is true if and only if NOT ([a.x_min > b.x_max]
    OR [a.x_max < b.x_min] OR [a.y_min > b.y_max] OR [a.y_max < b.y_min]),
    the comparisons being those of IEEE 754; rectangles that only touch
    intersect: [intersects((0,0,1,1), (1,1,2,2))] is true. *)
Theorem intersects_iff_not_separated :
  (forall a b : Rectangle,
      intersects a b = true
      <-> ~ (ieee_gt (x_min a) (x_max b) \/ ieee_lt (x_max a) (x_min b)
             \/ ieee_gt (y_min a) (y_max b) \/ ieee_lt (y_max a) (y_min b)))
  /\ intersects (mkRectangle 0 0 1 1) (mkRectangle 1 1 2 2) = true.
Proof.
  split.
  - intros a b. apply intersects_disjoint.
  - reflexivity.
Qed.

(** C8.  Symmetry: [intersects(a, b) = intersects(b, a)] for all
    rectangles, well-formed or not. *)
Theorem intersects_symmetric (a b : Rectangle) :
  intersects a b = intersects b a.
Proof.
  unfold intersects, Cpp.gt, Cpp.lt. f_equal.
  destruct (x_max b <? x_min a)%float, (x_max a <? x_min b)%float,
           (y_max b <? y_min a)%float, (y_max a <? y_min b)%float;
    reflexivity.
Qed.

(** ** Insert, then query *)

Lemma query_one (h : Store) (p : PropertyPtr) (range : Rectangle) :
  query h (RTree_insert h RTree_new p) range
  = if intersects initial_box range
    then (if matches h range p then [p] else [])
    else [].
Proof.
  change (RTree_insert h RTree_new p) with (insert_all h [p]).
  rewrite query_insert_all. reflexivity.
Qed.

(** C1.  After inserting a listing whose bbox is (10,10,20,20) into a fresh
    index, the query with range (5,5,25,25) returns a sequence that
    contains the listing, and the query with the disjoint range
    (30,30,40,40) returns a sequence that does not contain it. *)
Theorem insert_query_roundtrip (h : Store) (p : PropertyPtr) :
  bbox (h p) = mkRectangle 10 10 20 20 ->
  In p (query h (RTree_insert h RTree_new p) (mkRectangle 5 5 25 25))
  /\ ~ In p (query h (RTree_insert h RTree_new p) (mkRectangle 30 30 40 40)).
Proof.
  intro Hbox. rewrite !query_one. unfold matches. rewrite Hbox.
  split.
  - change (In p [p]). now left.
  - change (~ In p []). intros [].
Qed.

Lemma insert_query_roundtrip_witness :
  bbox (store_roundtrip 0%nat) = mkRectangle 10 10 20 20
  /\ In 0%nat (query store_roundtrip (RTree_insert store_roundtrip RTree_new 0%nat)
                     (mkRectangle 5 5 25 25))
  /\ ~ In 0%nat (query store_roundtrip (RTree_insert store_roundtrip RTree_new 0%nat)
                       (mkRectangle 30 30 40 40)).
Proof.
  split; [reflexivity|].
  apply (insert_query_roundtrip store_roundtrip 0%nat). reflexivity.
Defined.

(** C4.  A listing outside the initial extent cannot be reached by a range
    query: after inserting a listing with bbox (150,150,160,160) into a
    fresh index, the query with range (140,140,170,170) is empty although
    the listing lies in the range, because the box of the root is still
    (0,0)-(100,100) and does not meet the range; and a query returns
    nothing whenever its range does not meet that fixed box. *)
Theorem out_of_extent_unreachable (h : Store) (p : PropertyPtr) :
  bbox (h p) = mkRectangle 150 150 160 160 ->
  query h (RTree_insert h RTree_new p) (mkRectangle 140 140 170 170) = []
  /\ matches h (mkRectangle 140 140 170 170) p = true
  /\ bounding_box (root (RTree_insert h RTree_new p)) = mkRectangle 0 0 100 100
  /\ intersects (mkRectangle 0 0 100 100) (mkRectangle 140 140 170 170) = false
  /\ (forall (props : list PropertyPtr) (range : Rectangle),
         intersects (mkRectangle 0 0 100 100) range = false ->
         query h (insert_all h props) range = []).
Proof.
  intro Hbox. split; [|split; [|split; [|split]]].
  - now rewrite query_one.
  - unfold matches. now rewrite Hbox.
  - reflexivity.
  - reflexivity.
  - intros props range Hmiss. apply query_pruned.
    now rewrite insert_all_root.
Qed.

Lemma out_of_extent_unreachable_witness :
  bbox (store_outside 0%nat) = mkRectangle 150 150 160 160
  /\ query store_outside (RTree_insert store_outside RTree_new 0%nat)
           (mkRectangle 140 140 170 170) = [].
Proof.
  split; [reflexivity|].
  apply (out_of_extent_unreachable store_outside 0%nat). reflexivity.
Defined.

(** C5, as stated, fails in two ways.  A listing that matches the range is
    not returned when the range misses the fixed box of the root; and a
    pointer handed to [insert] twice is returned twice. *)
Lemma query_not_exactly_the_matches :
  (matches store_outside (mkRectangle 140 140 170 170) 0%nat = true
   /\ ~ In 0%nat (query store_outside (insert_all store_outside [0%nat])
                        (mkRectangle 140 140 170 170)))
  /\ query store_three (insert_all store_three twice)
           (mkRectangle 0 0 100 100) = [0%nat; 0%nat].
Proof.
  split; [split|].
  - reflexivity.
  - rewrite query_insert_all. change (~ In 0%nat []). intros [].
  - rewrite query_insert_all. reflexivity.
Qed.

(** C5, amended.  For every sequence of inserted listings and every query
    rectangle that meets the box (0,0)-(100,100) of the root, the result
    lists exactly the matching listings in their insertion order; in every
    result a listing appears at most as often as it was inserted, so at
    most once when each listing is inserted once. *)
Theorem query_matches_in_insertion_order
        (h : Store) (props : list PropertyPtr) (range : Rectangle) :
  intersects (mkRectangle 0 0 100 100) range = true ->
  query h (insert_all h props) range = filter (matches h range) props
  /\ (forall p : PropertyPtr,
         (count_occ Nat.eq_dec (query h (insert_all h props) range) p
          <= count_occ Nat.eq_dec props p)%nat)
  /\ (NoDup props -> NoDup (query h (insert_all h props) range)).
Proof.
  intro Hroot. rewrite query_insert_all.
  change (mkRectangle 0 0 100 100) with initial_box in Hroot. rewrite Hroot.
  split; [reflexivity|]. split.
  - intro p. apply filter_count_occ_le.
  - apply NoDup_filter.
Qed.

(** L1, L2, L3 inserted in that order and queried with a range that covers
    all three come back as [L1; L2; L3]. *)
Lemma query_matches_in_insertion_order_witness :
  intersects (mkRectangle 0 0 100 100) (mkRectangle 0 0 100 100) = true
  /\ query store_three (insert_all store_three [0; 1; 2]%nat)
           (mkRectangle 0 0 100 100) = [0; 1; 2]%nat.
Proof.
  split; [reflexivity|].
  exact (proj1 (query_matches_in_insertion_order
                  store_three [0; 1; 2]%nat (mkRectangle 0 0 100 100)
                  eq_refl)).
Defined.

(** C6.  [insert] only appends.  After the inserts [props] the root is a
    leaf without children, with the constructor's box and with exactly the
    inserted listings in order; one more insert appends its listing and
    changes nothing else; and the range that is the whole plane, which
    covers the initial extent, returns all of them. *)
Theorem insert_append_only
        (h : Store) (props : list PropertyPtr) (p : PropertyPtr) :
  root (insert_all h props) = mkRTreeNode [] props (mkRectangle 0 0 100 100) true
  /\ root (RTree_insert h (insert_all h props) p)
     = mkRTreeNode [] (props ++ [p]) (mkRectangle 0 0 100 100) true
  /\ List.length (leaf_properties (root (insert_all h props))) = List.length props
  /\ covers whole_plane (mkRectangle 0 0 100 100) = true
  /\ query h (insert_all h props) whole_plane = props.
Proof.
  split; [apply insert_all_root|]. split; [|split; [|split]].
  - change (RTree_insert h (insert_all h props) p)
      with (fold_left (RTree_insert h) [p] (insert_all h props)).
    unfold insert_all. rewrite <- fold_left_app.
    apply (insert_all_root h (props ++ [p])).
  - now rewrite insert_all_root.
  - reflexivity.
  - apply query_all.
    + reflexivity.
    + apply Forall_forall. intros q _. apply whole_plane_intersects.
Qed.

Lemma query_after_insert_leaf
      (h : Store) (t : RTree) (p : PropertyPtr) (range : Rectangle) :
  is_leaf (root t) = true ->
  query h (RTree_insert h t p) range
  = query h t range
    ++ (if intersects (bounding_box (root t)) range && matches h range p
        then [p] else []).
Proof.
  intro Hleaf.
  rewrite (query_leaf h t range Hleaf).
  unfold RTree_insert. rewrite query_leaf; simpl root.
  - rewrite (insert_leaf h (root t) p Hleaf); simpl.
    destruct (intersects (bounding_box (root t)) range); simpl;
      [|reflexivity].
    rewrite filter_app; simpl. now destruct (matches h range p).
  - now rewrite (insert_leaf h (root t) p Hleaf).
Qed.

(** C9.  The result of a query before an insert is a prefix of the result
    of the same query after it: the insert adds the new listing at the end
    of the result, or adds nothing.  This holds for every index whose root
    is a leaf, and so for every index the public interface builds. *)
Theorem query_prefix_after_insert :
  (forall (h : Store) (t : RTree) (p : PropertyPtr) (range : Rectangle),
      is_leaf (root t) = true ->
      exists tail : list PropertyPtr,
        query h (RTree_insert h t p) range = query h t range ++ tail
        /\ (tail = [] \/ tail = [p]))
  /\ (forall (h : Store) (props : list PropertyPtr) (p : PropertyPtr)
             (range : Rectangle),
         exists tail : list PropertyPtr,
           query h (RTree_insert h (insert_all h props) p) range
           = query h (insert_all h props) range ++ tail
           /\ (tail = [] \/ tail = [p])).
Proof.
  assert (Hleaf_case :
            forall h t p range,
              is_leaf (root t) = true ->
              exists tail : list PropertyPtr,
                query h (RTree_insert h t p) range = query h t range ++ tail
                /\ (tail = [] \/ tail = [p])).
  { intros h t p range Hleaf.
    exists (if intersects (bounding_box (root t)) range && matches h range p
            then [p] else []).
    split.
    - now apply query_after_insert_leaf.
    - destruct (intersects (bounding_box (root t)) range && matches h range p);
        [now right | now left]. }
  split; [exact Hleaf_case|].
  intros h props p range. apply Hleaf_case.
  now rewrite insert_all_root.
Qed.

Lemma query_prefix_after_insert_witness :
  is_leaf (root (insert_all store_three [0; 1]%nat)) = true
  /\ exists tail : list PropertyPtr,
       query store_three
             (RTree_insert store_three (insert_all store_three [0; 1]%nat) 2%nat)
             (mkRectangle 0 0 50 50)
       = query store_three (insert_all store_three [0; 1]%nat)
               (mkRectangle 0 0 50 50) ++ tail
       /\ (tail = [] \/ tail = [2%nat]).
Proof.
  split; [reflexivity|].
  apply (proj1 query_prefix_after_insert store_three
               (insert_all store_three [0; 1]%nat) 2%nat
               (mkRectangle 0 0 50 50)).
  reflexivity.
Defined.

(** ** queryNearLocation *)

Lemma visit_candidate_kept
      (h : Store) (x y radius max_price min_area : float) (min_bedrooms : Z)
      (results : list PropertyPtr) (prop : PropertyPtr) :
  visit_candidate h x y radius max_price min_area min_bedrooms results prop
  = if kept h x y radius max_price min_area min_bedrooms prop
    then results ++ [prop] else results.
Proof.
  unfold visit_candidate, kept, truncated_centroid_distance, centroid,
    calculateDistance, euclidean_distance.
  now rewrite Z.geb_leb.
Qed.

(** Radius and filters together (section 8 of the specification): of two
    listings at centroid distances 3 and 7, both candidates of the square
    search, the radius 5 keeps the first only. *)
Example radius_filter_composition :
  query store_3_and_7 (insert_all store_3_and_7 [0; 1]%nat)
        (search_square 0 0 5) = [0; 1]%nat
  /\ queryNearLocation store_3_and_7 (insert_all store_3_and_7 [0; 1]%nat)
                       0 0 5 200000 0 0 = [0%nat].
Proof. split; vm_compute; reflexivity. Qed.



(** C10.  [queryNearLocation] can return a listing that lies strictly
    farther away than the radius: an index holding one listing whose true
    centroid distance from (0, 0) is 5.9 returns it for the radius 5,
    because the distance is compared as 5. *)
Theorem queryNearLocation_beyond_radius :
  exists (h : Store) (props : list PropertyPtr)
         (x y radius max_price min_area : float) (min_bedrooms : Z)
         (p : PropertyPtr),
    In p (queryNearLocation h (insert_all h props)
                            x y radius max_price min_area min_bedrooms)
    /\ is_finite radius = true
    /\ (0 <= exact_value radius)%Q
    /\ (exact_value radius * exact_value radius
        < exact_sq_centroid_distance x y (bbox (h p)))%Q
    /\ (exact_sq_centroid_distance x y (bbox (h p))
        == exact_value 5.9 * exact_value 5.9)%Q
    /\ truncated_centroid_distance x y (bbox (h p)) = 5%Z
    /\ radius = 5%float.
Proof.
  exists store_5_9, [0%nat], 0%float, 0%float, 5%float, 200000%float,
         0%float, 0%Z, 0%nat.
  split; [|split; [|split; [|split; [|split; [|split]]]]].
  - change (In 0%nat [0%nat]). now left.
  - reflexivity.
  - vm_compute. discriminate.
  - vm_compute. reflexivity.
  - vm_compute. reflexivity.
  - reflexivity.
  - reflexivity.
Qed.

(** * Further properties

    The parts of [project.cpp] the theorems above do not reach:
    [updateBoundingBox], the internal branches of [insert] and of
    [queryRecursive], and the insert branch of [main]; with them, what
    [intersects], [query] and [queryNearLocation] do beyond the cases
    above. *)

(** ** The order of doubles *)

Lemma rank_compare_Lt (a b : Z * Z * Z) :
  rank_compare a b = Lt <-> rank_lt a b.
Proof.
  destruct a as [[a1 a2] a3], b as [[b1 b2] b3]; simpl.
  destruct (Z.compare_spec a1 b1), (Z.compare_spec a2 b2),
    (Z.compare_spec a3 b3); split; intro Hx; try discriminate;
    try reflexivity; try lia.
Qed.

Lemma rank_compare_Eq (a b : Z * Z * Z) :
  rank_compare a b = Eq <-> a = b.
Proof.
  destruct a as [[a1 a2] a3], b as [[b1 b2] b3]; simpl.
  destruct (Z.compare_spec a1 b1), (Z.compare_spec a2 b2),
    (Z.compare_spec a3 b3); split; intro Hx; try discriminate;
    try reflexivity; try (injection Hx; lia); subst; reflexivity.
Qed.

Lemma SFcompare_rank (f1 f2 : spec_float) :
  SFcompare f1 f2
  = match SFrank f1, SFrank f2 with
    | Some a, Some b => Some (rank_compare a b)
    | _, _ => None
    end.
Proof.
  destruct f1 as [s1|s1| |s1 m1 e1], f2 as [s2|s2| |s2 m2 e2];
    try (destruct s1); try (destruct s2); try reflexivity.
  simpl. rewrite Z.compare_opp, (Z.compare_antisym e1 e2).
  destruct (e1 ?= e2)%Z; reflexivity.
Qed.

Lemma lt_rank (a b : float) :
  Cpp.lt a b = true
  <-> exists ka kb, rank a = Some ka /\ rank b = Some kb /\ rank_lt ka kb.
Proof.
  unfold Cpp.lt, rank. rewrite FloatAxioms.ltb_spec. unfold SFltb.
  rewrite SFcompare_rank.
  destruct (SFrank (Prim2SF a)) as [ka|], (SFrank (Prim2SF b)) as [kb|].
  - split.
    + intro H. exists ka, kb. repeat split.
      apply rank_compare_Lt. destruct (rank_compare ka kb); congruence.
    + intros (ka' & kb' & [= <-] & [= <-] & Hlt).
      apply rank_compare_Lt in Hlt. now rewrite Hlt.
  - split; [discriminate|]. intros (? & ? & _ & H & _). discriminate.
  - split; [discriminate|]. intros (? & ? & H & _). discriminate.
  - split; [discriminate|]. intros (? & ? & H & _). discriminate.
Qed.

Lemma le_rank (a b : float) :
  Cpp.le a b = true
  <-> exists ka kb, rank a = Some ka /\ rank b = Some kb /\ rank_le ka kb.
Proof.
  unfold Cpp.le, rank. rewrite FloatAxioms.leb_spec. unfold SFleb.
  rewrite SFcompare_rank.
  destruct (SFrank (Prim2SF a)) as [ka|], (SFrank (Prim2SF b)) as [kb|].
  - split.
    + intro H. exists ka, kb. repeat split. unfold rank_le.
      destruct (rank_compare ka kb) eqn:Hc; try discriminate.
      * right. now apply rank_compare_Eq.
      * left. now apply rank_compare_Lt.
    + intros (ka' & kb' & [= <-] & [= <-] & [Hlt | Heq]).
      * apply rank_compare_Lt in Hlt. now rewrite Hlt.
      * apply rank_compare_Eq in Heq. now rewrite Heq.
  - split; [discriminate|]. intros (? & ? & _ & H & _). discriminate.
  - split; [discriminate|]. intros (? & ? & H & _). discriminate.
  - split; [discriminate|]. intros (? & ? & H & _). discriminate.
Qed.

Lemma is_nan_rank (a : float) :
  PrimFloat.is_nan a = false <-> exists ka, rank a = Some ka.
Proof.
  unfold PrimFloat.is_nan, rank. rewrite FloatAxioms.eqb_spec. unfold SFeqb.
  rewrite SFcompare_rank.
  destruct (SFrank (Prim2SF a)) as [ka|].
  - assert (H : rank_compare ka ka = Eq) by now apply rank_compare_Eq.
    rewrite H. split; [eauto | reflexivity].
  - split; [discriminate | intros [? H]; discriminate].
Qed.


Ltac rank_cases :=
  repeat match goal with
         | k : (Z * Z * Z)%type |- _ => destruct k as [[? ?] ?]
         end;
  unfold rank_le, rank_lt in *;
  repeat match goal with
         | H : (_, _, _) = (_, _, _) |- _ => injection H as ? ? ?
         | H : _ \/ (_, _, _) = (_, _, _) |- _ => destruct H as [H | [= ? ? ?]]
         end.

(** Turns the comparisons that hold into facts about ranks. *)
Ltac to_ranks :=
  repeat match goal with
         | H : Cpp.lt _ _ = true |- _ =>
             apply lt_rank in H; destruct H as (? & ? & ? & ? & ?)
         | H : Cpp.le _ _ = true |- _ =>
             apply le_rank in H; destruct H as (? & ? & ? & ? & ?)
         | H : PrimFloat.is_nan _ = false |- _ =>
             apply is_nan_rank in H; destruct H as (? & ?)
         end;
  repeat match goal with
         | H1 : rank ?a = Some ?k1, H2 : rank ?a = Some ?k2 |- _ =>
             rewrite H1 in H2; injection H2 as <-
         end.

Lemma rank_lt_irrefl (k : Z * Z * Z) : ~ rank_lt k k.
Proof. rank_cases. lia. Qed.

Lemma double_lt_irrefl (a : float) : Cpp.lt a a = false.
Proof.
  apply not_true_iff_false. intro H. to_ranks.
  eapply rank_lt_irrefl; eassumption.
Qed.

Lemma double_lt_trans (a b c : float) :
  Cpp.lt a b = true -> Cpp.lt b c = true -> Cpp.lt a c = true.
Proof.
  intros Hab Hbc. to_ranks. apply lt_rank. do 2 eexists.
  repeat split; eauto. rank_cases. lia.
Qed.

Lemma double_lt_le_trans (a b c : float) :
  Cpp.lt a b = true -> Cpp.le b c = true -> Cpp.lt a c = true.
Proof.
  intros Hab Hbc. to_ranks. apply lt_rank. do 2 eexists.
  repeat split; eauto. rank_cases; subst; lia.
Qed.

Lemma double_le_lt_trans (a b c : float) :
  Cpp.le a b = true -> Cpp.lt b c = true -> Cpp.lt a c = true.
Proof.
  intros Hab Hbc. to_ranks. apply lt_rank. do 2 eexists.
  repeat split; eauto. rank_cases; subst; lia.
Qed.

Lemma double_le_trans (a b c : float) :
  Cpp.le a b = true -> Cpp.le b c = true -> Cpp.le a c = true.
Proof.
  intros Hab Hbc. to_ranks. apply le_rank. do 2 eexists.
  repeat split; eauto.
  repeat match goal with
         | Hle : rank_le _ _ |- _ => destruct Hle as [Hle| ->]
         end;
    try (now right); try (now left).
  left. rank_cases. lia.
Qed.

Lemma double_lt_le (a b : float) : Cpp.lt a b = true -> Cpp.le a b = true.
Proof.
  intro Hab. to_ranks. apply le_rank. do 2 eexists.
  repeat split; eauto. now left.
Qed.

Lemma double_le_refl (a : float) : PrimFloat.is_nan a = false -> Cpp.le a a = true.
Proof.
  intro Ha. to_ranks. apply le_rank. do 2 eexists.
  repeat split; eauto. now right.
Qed.

Lemma double_le_not_nan (a b : float) :
  Cpp.le a b = true ->
  PrimFloat.is_nan a = false /\ PrimFloat.is_nan b = false.
Proof.
  intro Hab. to_ranks. split; apply is_nan_rank; eauto.
Qed.

Lemma double_lt_not_nan (a b : float) :
  Cpp.lt a b = true ->
  PrimFloat.is_nan a = false /\ PrimFloat.is_nan b = false.
Proof.
  intro Hab. to_ranks. split; apply is_nan_rank; eauto.
Qed.

Lemma rank_total (ka kb : Z * Z * Z) : rank_lt ka kb \/ rank_le kb ka.
Proof.
  destruct ka as [[a1 a2] a3], kb as [[b1 b2] b3]. unfold rank_le, rank_lt.
  destruct (Z.compare_spec a1 b1), (Z.compare_spec a2 b2),
    (Z.compare_spec a3 b3); subst; try (left; lia); try (right; left; lia).
  right; right; reflexivity.
Qed.

(** Of two doubles that are not NaN, one is below the other. *)
Lemma double_not_lt_le (a b : float) :
  PrimFloat.is_nan a = false -> PrimFloat.is_nan b = false ->
  Cpp.lt a b = false -> Cpp.le b a = true.
Proof.
  intros Ha Hb Hnlt. to_ranks. apply le_rank. do 2 eexists.
  repeat split; eauto.
  match goal with
  | Hra : rank a = Some ?ka, Hrb : rank b = Some ?kb |- _ =>
      destruct (rank_total ka kb) as [Hlt|Hle]; [|exact Hle]
  end.
  exfalso. apply not_true_iff_false in Hnlt. apply Hnlt.
  apply lt_rank. eauto 6.
Qed.

Lemma double_le_not_lt (a b : float) : Cpp.le a b = true -> Cpp.lt b a = false.
Proof.
  intro Hab. apply not_true_iff_false. intro Hba. to_ranks.
  rank_cases; subst; lia.
Qed.

(** A comparison with a NaN is false. *)
Lemma double_le_nan_r (a b : float) : PrimFloat.is_nan b = true -> Cpp.le a b = false.
Proof.
  intro Hb. apply not_true_iff_false. intro Hab.
  apply double_le_not_nan in Hab. destruct Hab as [_ Hb']. congruence.
Qed.

Lemma double_lt_nan_l (a b : float) : PrimFloat.is_nan a = true -> Cpp.lt a b = false.
Proof.
  intro Ha. apply not_true_iff_false. intro Hab.
  apply double_lt_not_nan in Hab. destruct Hab as [Ha' _]. congruence.
Qed.

Lemma double_lt_nan_r (a b : float) : PrimFloat.is_nan b = true -> Cpp.lt a b = false.
Proof.
  intro Hb. apply not_true_iff_false. intro Hab.
  apply double_lt_not_nan in Hab. destruct Hab as [_ Hb']. congruence.
Qed.


(** ** Running extrema *)

Section RunningExtremum.

(** [better b acc] says that [b] replaces the running extremum [acc]:
    [b < acc] for a minimum, [acc < b] for a maximum. *)
Variable better : float -> float -> bool.
Hypothesis better_irrefl : forall a, better a a = false.
Hypothesis better_trans :
  forall a b c, better a b = true -> better b c = true -> better a c = true.

Lemma fold_pick_origin (l : list float) (acc : float) :
  fold_left (pick better) l acc = acc
  \/ (In (fold_left (pick better) l acc) l
      /\ better (fold_left (pick better) l acc) acc = true).
Proof.
  revert acc; induction l as [|b l IH]; intro acc; simpl; [now left|].
  destruct (IH (pick better acc b)) as [Heq | [Hin Hbet]].
  - rewrite Heq. unfold pick. destruct (better b acc) eqn:Hb.
    + right. split; [now left | exact Hb].
    + now left.
  - remember (fold_left (pick better) l (pick better acc b)) as F.
    right. split; [now right|].
    unfold pick in Hbet. destruct (better b acc) eqn:Hb; [|exact Hbet].
    now apply better_trans with b.
Qed.

Lemma fold_pick_bound (l : list float) (acc b : float) :
  In b l -> better b (fold_left (pick better) l acc) = false.
Proof.
  revert acc; induction l as [|c l IH]; intros acc Hin; simpl; [easy|].
  destruct Hin as [-> | Hin]; [|now apply IH].
  assert (Hstep : better b (pick better acc b) = false).
  { unfold pick. destruct (better b acc) eqn:Hb;
      [apply better_irrefl | exact Hb]. }
  destruct (fold_pick_origin l (pick better acc b)) as [-> | [_ Hbet]];
    [exact Hstep|].
  destruct (better b (fold_left (pick better) l (pick better acc b))) eqn:Hb';
    [|reflexivity].
  rewrite <- Hstep. symmetry.
  now apply better_trans with (fold_left (pick better) l (pick better acc b)).
Qed.

Lemma fold_pick_stable (l : list float) (acc : float) :
  (forall b, In b l -> better b acc = false) ->
  fold_left (pick better) l acc = acc.
Proof.
  induction l as [|c l IH]; intro Hall; simpl; [reflexivity|].
  unfold pick at 2. rewrite (Hall c (or_introl eq_refl)).
  apply IH. intros b Hb. apply Hall. now right.
Qed.

End RunningExtremum.


(** ** updateBoundingBox *)

Lemma double_gt_irrefl (a : float) : Cpp.gt a a = false.
Proof. apply double_lt_irrefl. Qed.

Lemma double_gt_trans (a b c : float) :
  Cpp.gt a b = true -> Cpp.gt b c = true -> Cpp.gt a c = true.
Proof. unfold Cpp.gt. intros Hab Hbc. now apply double_lt_trans with b. Qed.

Lemma fold_extend_box_coordinates (l : list Rectangle) (acc : Rectangle) :
  x_min (fold_left extend_box l acc)
  = fold_left (pick Cpp.lt) (map x_min l) (x_min acc)
  /\ y_min (fold_left extend_box l acc)
     = fold_left (pick Cpp.lt) (map y_min l) (y_min acc)
  /\ x_max (fold_left extend_box l acc)
     = fold_left (pick Cpp.gt) (map x_max l) (x_max acc)
  /\ y_max (fold_left extend_box l acc)
     = fold_left (pick Cpp.gt) (map y_max l) (y_max acc).
Proof.
  revert acc; induction l as [|b l IH]; intro acc; simpl; [tauto|].
  destruct (IH (extend_box acc b)) as (Hx & Hy & HX & HY).
  rewrite Hx, Hy, HX, HY. repeat split.
Qed.

(** The running minimum of doubles that are not NaN is below its start
    and below every element; the running maximum is above them. *)
Lemma running_min_below (l : list float) (acc : float) :
  PrimFloat.is_nan acc = false ->
  (forall b, In b l -> PrimFloat.is_nan b = false) ->
  Cpp.le (fold_left (pick Cpp.lt) l acc) acc = true
  /\ (forall b, In b l -> Cpp.le (fold_left (pick Cpp.lt) l acc) b = true).
Proof.
  intros Hacc Hl.
  assert (Hnan : PrimFloat.is_nan (fold_left (pick Cpp.lt) l acc) = false).
  { destruct (fold_pick_origin Cpp.lt double_lt_trans l acc) as [-> | [Hin _]];
      [exact Hacc | now apply Hl]. }
  split.
  - destruct (fold_pick_origin Cpp.lt double_lt_trans l acc) as [-> | [_ Hlt]].
    + now apply double_le_refl.
    + now apply double_lt_le.
  - intros b Hb. apply double_not_lt_le; [now apply Hl | exact Hnan |].
    now apply (fold_pick_bound Cpp.lt double_lt_irrefl double_lt_trans).
Qed.

Lemma running_max_above (l : list float) (acc : float) :
  PrimFloat.is_nan acc = false ->
  (forall b, In b l -> PrimFloat.is_nan b = false) ->
  Cpp.ge (fold_left (pick Cpp.gt) l acc) acc = true
  /\ (forall b, In b l -> Cpp.ge (fold_left (pick Cpp.gt) l acc) b = true).
Proof.
  intros Hacc Hl.
  assert (Hnan : PrimFloat.is_nan (fold_left (pick Cpp.gt) l acc) = false).
  { destruct (fold_pick_origin Cpp.gt double_gt_trans l acc) as [-> | [Hin _]];
      [exact Hacc | now apply Hl]. }
  unfold Cpp.ge. split.
  - destruct (fold_pick_origin Cpp.gt double_gt_trans l acc) as [-> | [_ Hgt]].
    + now apply double_le_refl.
    + now apply double_lt_le.
  - intros b Hb. apply double_not_lt_le; [exact Hnan | now apply Hl |].
    now apply (fold_pick_bound Cpp.gt double_gt_irrefl double_gt_trans l acc b).
Qed.

(** A bound of the start and of every element bounds the running
    extremum, which is one of them. *)
Lemma running_min_greatest (l : list float) (acc c : float) :
  Cpp.le c acc = true ->
  (forall b, In b l -> Cpp.le c b = true) ->
  Cpp.le c (fold_left (pick Cpp.lt) l acc) = true.
Proof.
  intros Hacc Hl.
  destruct (fold_pick_origin Cpp.lt double_lt_trans l acc) as [-> | [Hin _]];
    [exact Hacc | now apply Hl].
Qed.

Lemma running_max_least (l : list float) (acc c : float) :
  Cpp.ge c acc = true ->
  (forall b, In b l -> Cpp.ge c b = true) ->
  Cpp.ge c (fold_left (pick Cpp.gt) l acc) = true.
Proof.
  intros Hacc Hl.
  destruct (fold_pick_origin Cpp.gt double_gt_trans l acc) as [-> | [Hin _]];
    [exact Hacc | now apply Hl].
Qed.

Lemma no_nan_coordinates (r : Rectangle) :
  no_nan r = true ->
  PrimFloat.is_nan (x_min r) = false /\ PrimFloat.is_nan (y_min r) = false
  /\ PrimFloat.is_nan (x_max r) = false /\ PrimFloat.is_nan (y_max r) = false.
Proof.
  unfold no_nan. rewrite negb_true_iff, !orb_false_iff. tauto.
Qed.

Lemma covers_coordinates (outer inner : Rectangle) :
  covers outer inner = true
  <-> Cpp.le (x_min outer) (x_min inner) = true
      /\ Cpp.le (y_min outer) (y_min inner) = true
      /\ Cpp.ge (x_max outer) (x_max inner) = true
      /\ Cpp.ge (y_max outer) (y_max inner) = true.
Proof. unfold covers. rewrite !andb_true_iff. tauto. Qed.

Lemma in_map_coordinate (f : Rectangle -> float) (l : list Rectangle)
      (P : float -> Prop) :
  (forall b, In b l -> P (f b)) -> forall v, In v (map f l) -> P v.
Proof.
  intros Hall v Hv. apply in_map_iff in Hv. destruct Hv as (b & <- & Hb).
  now apply Hall.
Qed.

Lemma fold_left_over_map (A B C : Type) (f : A -> B -> A) (g : C -> B)
      (l : list C) (a : A) :
  fold_left f (map g l) a = fold_left (fun acc x => f acc (g x)) l a.
Proof. revert a; induction l as [|x l IH]; intro a; simpl; auto. Qed.

(** What [updateBoundingBox] leaves alone, and the box it computes. *)
Lemma updateBoundingBox_fold (h : Store) (this : RTreeNode) :
  updateBoundingBox h this
  = mkRTreeNode (children this) (leaf_properties this)
                (fold_left extend_box (member_boxes h this)
                           (bounding_box this))
                (is_leaf this).
Proof.
  destruct this as [ch props box leaf].
  unfold updateBoundingBox, member_boxes.
  cbn [children leaf_properties bounding_box is_leaf].
  destruct leaf; rewrite fold_left_over_map;
    destruct ch as [|c ch], props as [|p props]; reflexivity.
Qed.



Lemma intersects_swap (a b : Rectangle) : intersects a b = intersects b a.
Proof.
  unfold intersects, Cpp.gt, Cpp.lt. f_equal.
  destruct (x_max b <? x_min a)%float, (x_max a <? x_min b)%float,
           (y_max b <? y_min a)%float, (y_max a <? y_min b)%float;
    reflexivity.
Qed.

Lemma intersects_coordinates (a b : Rectangle) :
  intersects a b = true
  <-> Cpp.gt (x_min a) (x_max b) = false /\ Cpp.lt (x_max a) (x_min b) = false
      /\ Cpp.gt (y_min a) (y_max b) = false /\ Cpp.lt (y_max a) (y_min b) = false.
Proof.
  unfold intersects. rewrite negb_true_iff, !orb_false_iff. tauto.
Qed.

Lemma gt_lt (a b : float) : Cpp.gt a b = Cpp.lt b a.
Proof. reflexivity. Qed.

Lemma ge_le (a b : float) : Cpp.ge a b = Cpp.le b a.
Proof. reflexivity. Qed.

(** ** Rectangle::intersects as geometry *)

(** A rectangle that covers an intersecting rectangle intersects too. *)
Lemma covers_keeps_intersection (outer inner r : Rectangle) :
  covers outer inner = true ->
  intersects inner r = true ->
  intersects outer r = true.
Proof.
  intros Hcov Hint.
  apply covers_coordinates in Hcov. destruct Hcov as (Hx & Hy & HX & HY).
  apply intersects_coordinates in Hint.
  destruct Hint as (Ix & IX & Iy & IY).
  rewrite ge_le in HX, HY. rewrite gt_lt in Ix, Iy.
  apply intersects_coordinates. rewrite !gt_lt.
  repeat split; apply not_true_iff_false; intro E.
  - rewrite (double_lt_le_trans _ _ _ E Hx) in Ix. discriminate.
  - rewrite (double_le_lt_trans _ _ _ HX E) in IX. discriminate.
  - rewrite (double_lt_le_trans _ _ _ E Hy) in Iy. discriminate.
  - rewrite (double_le_lt_trans _ _ _ HY E) in IY. discriminate.
Qed.

(** X1.  Growing a rectangle keeps its intersections: when [outer] covers
    [inner] and [inner] intersects [r], then [outer] intersects [r], in
    either order of the two arguments of [intersects]. *)
Theorem intersects_covers (outer inner r : Rectangle) :
  covers outer inner = true ->
  intersects inner r = true ->
  intersects outer r = true /\ intersects r outer = true.
Proof.
  intros Hcov Hint.
  pose proof (covers_keeps_intersection outer inner r Hcov Hint) as H.
  split; [exact H | now rewrite intersects_swap].
Qed.

Lemma intersects_covers_witness :
  covers initial_box (mkRectangle 10 10 20 20) = true
  /\ intersects (mkRectangle 10 10 20 20) (mkRectangle 15 15 300 300) = true
  /\ intersects initial_box (mkRectangle 15 15 300 300) = true
  /\ intersects (mkRectangle 15 15 300 300) initial_box = true.
Proof.
  split; [reflexivity|]. split; [reflexivity|].
  apply (intersects_covers initial_box (mkRectangle 10 10 20 20)
                           (mkRectangle 15 15 300 300));
    reflexivity.
Defined.

(** ** updateBoundingBox: the box it computes *)

(** Folding boxes without NaN coordinates into a box without NaN
    coordinates gives a box that covers the start and every box folded. *)
Lemma fold_extend_box_covers (l : list Rectangle) (acc : Rectangle) :
  no_nan acc = true ->
  Forall (fun b => no_nan b = true) l ->
  covers (fold_left extend_box l acc) acc = true
  /\ Forall (fun b => covers (fold_left extend_box l acc) b = true) l.
Proof.
  intros Hbox Hall.
  apply no_nan_coordinates in Hbox. destruct Hbox as (Nx & Ny & NX & NY).
  rewrite Forall_forall in Hall.
  assert (Hc : forall b, In b l ->
                    PrimFloat.is_nan (x_min b) = false
                    /\ PrimFloat.is_nan (y_min b) = false
                    /\ PrimFloat.is_nan (x_max b) = false
                    /\ PrimFloat.is_nan (y_max b) = false).
  { intros b Hb. apply no_nan_coordinates. now apply Hall. }
  destruct (fold_extend_box_coordinates l acc) as (Hx & Hy & HX & HY).
  destruct (running_min_below (map x_min l) _ Nx) as [Ax Bx].
  { apply in_map_coordinate. intros b Hb. apply (Hc b Hb). }
  destruct (running_min_below (map y_min l) _ Ny) as [Ay By].
  { apply in_map_coordinate. intros b Hb. apply (Hc b Hb). }
  destruct (running_max_above (map x_max l) _ NX) as [AX BX].
  { apply in_map_coordinate. intros b Hb. apply (Hc b Hb). }
  destruct (running_max_above (map y_max l) _ NY) as [AY BY].
  { apply in_map_coordinate. intros b Hb. apply (Hc b Hb). }
  split.
  - apply covers_coordinates. rewrite Hx, Hy, HX, HY. tauto.
  - apply Forall_forall. intros b Hb.
    apply covers_coordinates. rewrite Hx, Hy, HX, HY.
    repeat split; [apply Bx | apply By | apply BX | apply BY];
      now apply in_map.
Qed.

(** X4.  [updateBoundingBox] only grows the box, and grows it enough:
    when neither the box of the node nor any box below it (the bboxes of
    the listings of a leaf, the boxes of the children of an internal
    node) has a NaN coordinate, the new box covers the old box and every
    box below. *)
Theorem updateBoundingBox_covers (h : Store) (this : RTreeNode) :
  no_nan (bounding_box this) = true ->
  Forall (fun b => no_nan b = true) (member_boxes h this) ->
  covers (bounding_box (updateBoundingBox h this)) (bounding_box this) = true
  /\ Forall (fun b => covers (bounding_box (updateBoundingBox h this)) b = true)
            (member_boxes h this).
Proof.
  intros Hbox Hall. rewrite updateBoundingBox_fold.
  cbn [bounding_box].
  now apply fold_extend_box_covers.
Qed.

Lemma updateBoundingBox_covers_witness :
  covers (bounding_box (updateBoundingBox store_mixed leaf_mixed))
         (mkRectangle 150 150 160 160) = true
  /\ bounding_box (updateBoundingBox store_mixed leaf_mixed)
     = mkRectangle 0 0 160 160.
Proof.
  split; [|reflexivity].
  assert (Hbox : no_nan (bounding_box leaf_mixed) = true) by reflexivity.
  assert (Hall : Forall (fun b => no_nan b = true)
                        (member_boxes store_mixed leaf_mixed)).
  { repeat constructor. }
  pose proof (proj2 (updateBoundingBox_covers store_mixed leaf_mixed Hbox Hall))
    as Hcov.
  rewrite Forall_forall in Hcov. apply Hcov. right. left. reflexivity.
Defined.

(** X5.  The box [updateBoundingBox] computes is the least one: every
    rectangle that covers the old box and every box below the node covers
    the new box. *)
Theorem updateBoundingBox_least (h : Store) (this : RTreeNode) (c : Rectangle) :
  covers c (bounding_box this) = true ->
  Forall (fun b => covers c b = true) (member_boxes h this) ->
  covers c (bounding_box (updateBoundingBox h this)) = true.
Proof.
  intros Hbox Hall. rewrite updateBoundingBox_fold; simpl.
  apply covers_coordinates in Hbox. destruct Hbox as (Cx & Cy & CX & CY).
  rewrite Forall_forall in Hall.
  assert (Hc : forall b, In b (member_boxes h this) ->
                    Cpp.le (x_min c) (x_min b) = true
                    /\ Cpp.le (y_min c) (y_min b) = true
                    /\ Cpp.ge (x_max c) (x_max b) = true
                    /\ Cpp.ge (y_max c) (y_max b) = true).
  { intros b Hb. apply covers_coordinates. now apply Hall. }
  destruct (fold_extend_box_coordinates (member_boxes h this)
                                        (bounding_box this))
    as (Hx & Hy & HX & HY).
  apply covers_coordinates. rewrite Hx, Hy, HX, HY. repeat split.
  - apply running_min_greatest; [exact Cx|].
    apply in_map_coordinate. intros b Hb. apply (Hc b Hb).
  - apply running_min_greatest; [exact Cy|].
    apply in_map_coordinate. intros b Hb. apply (Hc b Hb).
  - apply running_max_least; [exact CX|].
    apply in_map_coordinate. intros b Hb. apply (Hc b Hb).
  - apply running_max_least; [exact CY|].
    apply in_map_coordinate. intros b Hb. apply (Hc b Hb).
Qed.

Lemma updateBoundingBox_least_witness :
  covers (mkRectangle (-5) (-5) 200 200)
         (bounding_box (updateBoundingBox store_mixed leaf_mixed)) = true.
Proof.
  apply (updateBoundingBox_least store_mixed leaf_mixed
                                 (mkRectangle (-5) (-5) 200 200)).
  - reflexivity.
  - repeat constructor.
Defined.

Lemma rectangle_eq (a b : Rectangle) :
  x_min a = x_min b -> y_min a = y_min b ->
  x_max a = x_max b -> y_max a = y_max b -> a = b.
Proof. destruct a, b; simpl; congruence. Qed.

Lemma fold_extend_box_bound (l : list Rectangle) (acc b : Rectangle) :
  In b l ->
  Cpp.lt (x_min b) (x_min (fold_left extend_box l acc)) = false
  /\ Cpp.lt (y_min b) (y_min (fold_left extend_box l acc)) = false
  /\ Cpp.gt (x_max b) (x_max (fold_left extend_box l acc)) = false
  /\ Cpp.gt (y_max b) (y_max (fold_left extend_box l acc)) = false.
Proof.
  intro Hb.
  destruct (fold_extend_box_coordinates l acc) as (Hx & Hy & HX & HY).
  rewrite Hx, Hy, HX, HY.
  repeat split.
  - apply (fold_pick_bound Cpp.lt double_lt_irrefl double_lt_trans). now apply in_map.
  - apply (fold_pick_bound Cpp.lt double_lt_irrefl double_lt_trans). now apply in_map.
  - apply (fold_pick_bound Cpp.gt double_gt_irrefl double_gt_trans). now apply in_map.
  - apply (fold_pick_bound Cpp.gt double_gt_irrefl double_gt_trans). now apply in_map.
Qed.

(** Folding the same boxes into the result once more changes nothing. *)
Lemma fold_extend_box_stable (l : list Rectangle) (acc : Rectangle) :
  fold_left extend_box l (fold_left extend_box l acc)
  = fold_left extend_box l acc.
Proof.
  pose proof (fold_extend_box_bound l acc) as Hbound.
  set (box := fold_left extend_box l acc) in *.
  destruct (fold_extend_box_coordinates l box) as (Hx & Hy & HX & HY).
  apply rectangle_eq.
  - rewrite Hx. apply fold_pick_stable.
    apply in_map_coordinate. intros b Hb. apply (Hbound b Hb).
  - rewrite Hy. apply fold_pick_stable.
    apply in_map_coordinate. intros b Hb. apply (Hbound b Hb).
  - rewrite HX. apply fold_pick_stable.
    apply in_map_coordinate. intros b Hb. apply (Hbound b Hb).
  - rewrite HY. apply fold_pick_stable.
    apply in_map_coordinate. intros b Hb. apply (Hbound b Hb).
Qed.

(** X6.  [updateBoundingBox] is idempotent on every node, NaN
    coordinates included: a second call changes nothing. *)
Theorem updateBoundingBox_idempotent (h : Store) (this : RTreeNode) :
  updateBoundingBox h (updateBoundingBox h this) = updateBoundingBox h this.
Proof.
  destruct this as [ch props box leaf].
  rewrite (updateBoundingBox_fold h (mkRTreeNode ch props box leaf)).
  rewrite updateBoundingBox_fold.
  unfold member_boxes. cbn [children leaf_properties bounding_box is_leaf].
  f_equal. apply fold_extend_box_stable.
Qed.


(** ** queryRecursive on arbitrary trees *)

(** Induction on a node with the property at hand for every child. *)
Lemma RTreeNode_induction (P : RTreeNode -> Prop) :
  (forall ch props box leaf,
      Forall P ch -> P (mkRTreeNode ch props box leaf)) ->
  forall node, P node.
Proof.
  intro Hnode. fix IH 1. intros [ch props box leaf].
  apply Hnode. induction ch as [|c ch IHch]; constructor.
  - apply IH.
  - exact IHch.
Qed.

Lemma filter_nil_iff (A : Type) (f : A -> bool) (l : list A) :
  filter f l = [] <-> forall a, In a l -> f a = false.
Proof.
  induction l as [|a l IH]; simpl.
  - split; [intros _ a [] | reflexivity].
  - destruct (f a) eqn:Hfa.
    + split; [discriminate|]. intro H. specialize (H a (or_introl eq_refl)).
      congruence.
    + rewrite IH. split.
      * intros H b [<- | Hb]; [exact Hfa | now apply H].
      * intros H b Hb. apply H. now right.
Qed.

Lemma filter_flat_map (A B : Type) (f : B -> bool) (g : A -> list B)
      (l : list A) :
  filter f (flat_map g l) = flat_map (fun a => filter f (g a)) l.
Proof.
  induction l as [|a l IH]; simpl; [reflexivity|].
  now rewrite filter_app, IH.
Qed.

Lemma flat_map_agree (A B : Type) (f g : A -> list B) (l : list A) :
  (forall a, In a l -> f a = g a) -> flat_map f l = flat_map g l.
Proof.
  induction l as [|a l IH]; intro Hfg; simpl; [reflexivity|].
  rewrite (Hfg a (or_introl eq_refl)), IH; [reflexivity|].
  intros b Hb. apply Hfg. now right.
Qed.

Lemma children_loop (h : Store) (range : Rectangle) (ch : list RTreeNode) :
  Forall (fun c => forall results,
              queryRecursive h c range results
              = results ++ queryRecursive h c range []) ch ->
  forall results,
    fold_left (fun res child => queryRecursive h child range res) ch results
    = results ++ flat_map (fun c => queryRecursive h c range []) ch.
Proof.
  induction 1 as [|c ch Hc _ IH]; intro results; simpl.
  - now rewrite app_nil_r.
  - rewrite IH, Hc. now rewrite <- app_assoc.
Qed.

Lemma queryRecursive_accumulates
        (h : Store) (node : RTreeNode) (range : Rectangle)
        (results : list PropertyPtr) :
  queryRecursive h node range results
  = results ++ queryRecursive h node range [].
Proof.
  revert results. induction node as [ch props box leaf IH]
    using RTreeNode_induction.
  intro results. simpl.
  destruct (intersects box range); simpl; [|now rewrite app_nil_r].
  destruct leaf.
  - rewrite !(fold_left_push_back PropertyPtr (matches h range)
                (visit_property h range) (fun _ _ => eq_refl)).
    reflexivity.
  - rewrite (children_loop h range ch IH results).
    now rewrite (children_loop h range ch IH []).
Qed.

Lemma queryRecursive_unfold (h : Store) (node : RTreeNode) (range : Rectangle) :
  queryRecursive h node range []
  = if intersects (bounding_box node) range
    then if is_leaf node
         then filter (matches h range) (leaf_properties node)
         else flat_map (fun c => queryRecursive h c range []) (children node)
    else [].
Proof.
  destruct node as [ch props box leaf]; simpl.
  destruct (intersects box range); simpl; [|reflexivity].
  destruct leaf.
  - apply (fold_left_push_back PropertyPtr (matches h range)
             (visit_property h range) (fun _ _ => eq_refl) props []).
  - apply (children_loop h range ch).
    apply Forall_forall. intros c _ results. apply queryRecursive_accumulates.
Qed.

Lemma queryRecursive_in_stored
        (h : Store) (node : RTreeNode) (range : Rectangle) (p : PropertyPtr) :
  In p (queryRecursive h node range []) ->
  In p (stored node) /\ matches h range p = true.
Proof.
  induction node as [ch props box leaf IH] using RTreeNode_induction.
  rewrite queryRecursive_unfold; simpl.
  destruct (intersects box range); [|intros []].
  destruct leaf.
  - intro Hin. apply filter_In in Hin. exact Hin.
  - intro Hin. apply in_flat_map in Hin. destruct Hin as (c & Hc & Hp).
    rewrite Forall_forall in IH. destruct (IH c Hc Hp) as [Hs Hm].
    split; [|exact Hm]. apply in_flat_map. now exists c.
Qed.

Lemma well_bounded_reaches
      (h : Store) (node : RTreeNode) (range : Rectangle) (p : PropertyPtr) :
  well_bounded h node = true ->
  In p (stored node) -> matches h range p = true ->
  intersects (bounding_box node) range = true.
Proof.
  induction node as [ch props box leaf IH] using RTreeNode_induction.
  simpl. destruct leaf.
  - intros Hwb Hin Hm. rewrite forallb_forall in Hwb.
    apply (covers_keeps_intersection box (bbox (h p)) range); [now apply Hwb|].
    rewrite intersects_swap. exact Hm.
  - intros Hwb Hin Hm. rewrite forallb_forall in Hwb.
    apply in_flat_map in Hin. destruct Hin as (c & Hc & Hp).
    specialize (Hwb c Hc). apply andb_true_iff in Hwb.
    destruct Hwb as [Hcov Hwbc].
    rewrite Forall_forall in IH.
    apply (covers_keeps_intersection box (bounding_box c) range); [exact Hcov|].
    now apply (IH c Hc).
Qed.

(** X11.  On every tree, [queryRecursive] leaves the results it was
    given in place and appends its own behind them: what precedes in the
    vector can be set aside and put back in front of the outcome, and
    the call with [results] is [results] followed by the call with an
    empty vector. *)
Theorem queryRecursive_appends
        (h : Store) (node : RTreeNode) (range : Rectangle)
        (before results : list PropertyPtr) :
  queryRecursive h node range (before ++ results)
  = before ++ queryRecursive h node range results
  /\ queryRecursive h node range results
     = results ++ queryRecursive h node range [].
Proof.
  split; [|apply queryRecursive_accumulates].
  rewrite (queryRecursive_accumulates h node range (before ++ results)).
  rewrite (queryRecursive_accumulates h node range results).
  now rewrite app_assoc.
Qed.

(** X12.  On every tree, whatever its boxes, each listing in the vector
    after [queryRecursive] was there before the call, or is held by a
    leaf of the tree and has a bbox that intersects the range. *)
Theorem queryRecursive_sound
        (h : Store) (node : RTreeNode) (range : Rectangle)
        (results : list PropertyPtr) (p : PropertyPtr) :
  In p (queryRecursive h node range results) ->
  In p results \/ (In p (stored node) /\ matches h range p = true).
Proof.
  rewrite queryRecursive_accumulates. intro Hin.
  apply in_app_or in Hin. destruct Hin as [Hold | Hnew].
  - now left.
  - right. now apply queryRecursive_in_stored.
Qed.

(** X13.  On a tree that keeps the bounding invariant (every box covers
    what lies below it) the pruning loses nothing: [queryRecursive]
    returns exactly the listings held by the leaves whose bbox intersects
    the range, in the order of the leaves. *)
Theorem queryRecursive_complete
        (h : Store) (node : RTreeNode) (range : Rectangle) :
  well_bounded h node = true ->
  queryRecursive h node range [] = filter (matches h range) (stored node).
Proof.
  induction node as [ch props box leaf IH] using RTreeNode_induction.
  intro Hwb. rewrite queryRecursive_unfold.
  cbn [bounding_box is_leaf leaf_properties children].
  destruct (intersects box range) eqn:Hbox.
  - simpl stored. destruct leaf; [reflexivity|].
    rewrite filter_flat_map. simpl in Hwb. rewrite forallb_forall in Hwb.
    rewrite Forall_forall in IH.
    apply flat_map_agree. intros c Hc. apply (IH c Hc).
    specialize (Hwb c Hc). apply andb_true_iff in Hwb. tauto.
  - symmetry. apply filter_nil_iff. intros p Hp.
    destruct (matches h range p) eqn:Hm; [|reflexivity].
    pose proof (well_bounded_reaches h
                  (mkRTreeNode ch props box leaf) range p Hwb Hp Hm) as Hreach.
    simpl in Hreach. congruence.
Qed.



Lemma queryRecursive_sound_witness :
  In 1%nat (queryRecursive store_mixed tree_two_leaves
                           (mkRectangle 140 140 170 170) [])
  /\ (In 1%nat []
      \/ (In 1%nat (stored tree_two_leaves)
          /\ matches store_mixed (mkRectangle 140 140 170 170) 1%nat = true)).
Proof.
  assert (Hin : In 1%nat (queryRecursive store_mixed tree_two_leaves
                                         (mkRectangle 140 140 170 170) []))
    by (left; reflexivity).
  split; [exact Hin|].
  exact (queryRecursive_sound store_mixed tree_two_leaves
                              (mkRectangle 140 140 170 170) [] 1%nat Hin).
Defined.

Lemma queryRecursive_complete_witness :
  well_bounded store_mixed tree_two_leaves = true
  /\ queryRecursive store_mixed tree_two_leaves (mkRectangle 140 140 170 170) []
     = [1%nat].
Proof.
  split; [reflexivity|].
  exact (queryRecursive_complete store_mixed tree_two_leaves
                                 (mkRectangle 140 140 170 170) eq_refl).
Defined.

(** A box that no coordinate of [b] improves on meets every range that
    [b] meets. *)
Lemma intersects_hull (box b range : Rectangle) :
  no_nan b = true ->
  Cpp.lt (x_min b) (x_min box) = false ->
  Cpp.lt (y_min b) (y_min box) = false ->
  Cpp.gt (x_max b) (x_max box) = false ->
  Cpp.gt (y_max b) (y_max box) = false ->
  intersects range b = true ->
  intersects box range = true.
Proof.
  intros Hnan Bx By BX BY Hint.
  apply no_nan_coordinates in Hnan. destruct Hnan as (Nx & Ny & NX & NY).
  rewrite intersects_swap in Hint.
  apply intersects_coordinates in Hint.
  destruct Hint as (Ix & IX & Iy & IY).
  rewrite gt_lt in Ix, Iy, BX, BY.
  apply intersects_coordinates. rewrite !gt_lt.
  repeat split; apply not_true_iff_false; intro E.
  - destruct (double_lt_not_nan _ _ E) as [_ Nbox].
    pose proof (double_not_lt_le _ _ Nx Nbox Bx) as Hle.
    rewrite (double_lt_le_trans _ _ _ E Hle) in Ix. discriminate.
  - destruct (double_lt_not_nan _ _ E) as [Nbox _].
    pose proof (double_not_lt_le _ _ Nbox NX BX) as Hle.
    rewrite (double_le_lt_trans _ _ _ Hle E) in IX. discriminate.
  - destruct (double_lt_not_nan _ _ E) as [_ Nbox].
    pose proof (double_not_lt_le _ _ Ny Nbox By) as Hle.
    rewrite (double_lt_le_trans _ _ _ E Hle) in Iy. discriminate.
  - destruct (double_lt_not_nan _ _ E) as [Nbox _].
    pose proof (double_not_lt_le _ _ Nbox NY BY) as Hle.
    rewrite (double_le_lt_trans _ _ _ Hle E) in IY. discriminate.
Qed.

(** X20.  [updateBoundingBox] establishes the bounding invariant at a
    node: when no box involved has a NaN coordinate and, for an internal
    node, the children keep the invariant, the node keeps it after the
    call. *)
Theorem updateBoundingBox_establishes_invariant
        (h : Store) (this : RTreeNode) :
  no_nan (bounding_box this) = true ->
  Forall (fun b => no_nan b = true) (member_boxes h this) ->
  (is_leaf this = false -> forallb (well_bounded h) (children this) = true) ->
  well_bounded h (updateBoundingBox h this) = true.
Proof.
  intros Hbox Hall Hch. rewrite updateBoundingBox_fold.
  destruct (fold_extend_box_covers (member_boxes h this) (bounding_box this)
                                   Hbox Hall) as [_ Hcov].
  rewrite Forall_forall in Hcov.
  destruct this as [ch props box leaf].
  unfold member_boxes in Hcov.
  cbn [children leaf_properties bounding_box is_leaf] in *.
  cbn [well_bounded]. destruct leaf.
  - apply forallb_forall. intros p Hp. apply Hcov.
    now apply (in_map (fun prop => bbox (h prop))).
  - apply forallb_forall. intros c Hc. apply andb_true_iff. split.
    + apply Hcov. now apply in_map.
    + specialize (Hch eq_refl). rewrite forallb_forall in Hch.
      now apply Hch.
Qed.

Lemma updateBoundingBox_establishes_invariant_witness :
  well_bounded store_mixed leaf_mixed = false
  /\ well_bounded store_mixed (updateBoundingBox store_mixed leaf_mixed)
     = true.
Proof.
  split; [reflexivity|].
  apply (updateBoundingBox_establishes_invariant store_mixed leaf_mixed).
  - reflexivity.
  - repeat constructor.
  - discriminate.
Defined.

(** X7.  After [updateBoundingBox] a leaf answers every range query
    with all of its matching listings, in order, whatever its box was
    before, provided no bbox of a listing has a NaN coordinate. *)
Theorem query_after_updateBoundingBox
        (h : Store) (this : RTreeNode) (range : Rectangle) :
  is_leaf this = true ->
  Forall (fun p => no_nan (bbox (h p)) = true) (leaf_properties this) ->
  queryRecursive h (updateBoundingBox h this) range []
  = filter (matches h range) (leaf_properties this).
Proof.
  intros Hleaf Hnan.
  rewrite queryRecursive_unfold, updateBoundingBox_fold.
  cbn [bounding_box is_leaf leaf_properties children]. rewrite Hleaf.
  destruct (intersects _ range) eqn:Hbox; [reflexivity|].
  symmetry. apply filter_nil_iff. intros p Hp.
  destruct (matches h range p) eqn:Hm; [|reflexivity].
  assert (Hb : In (bbox (h p)) (member_boxes h this)).
  { unfold member_boxes. rewrite Hleaf.
    now apply (in_map (fun prop => bbox (h prop))). }
  destruct (fold_extend_box_bound (member_boxes h this) (bounding_box this)
                                  (bbox (h p)) Hb) as (Bx & By & BX & BY).
  rewrite Forall_forall in Hnan.
  rewrite (intersects_hull _ (bbox (h p)) range (Hnan p Hp) Bx By BX BY Hm)
    in Hbox.
  discriminate.
Qed.

Lemma query_after_updateBoundingBox_witness :
  query store_mixed (mkRTree leaf_mixed) (mkRectangle 140 140 170 170) = []
  /\ queryRecursive store_mixed (updateBoundingBox store_mixed leaf_mixed)
                    (mkRectangle 140 140 170 170) [] = [1%nat].
Proof.
  split; [reflexivity|].
  apply (query_after_updateBoundingBox store_mixed leaf_mixed
                                       (mkRectangle 140 140 170 170)).
  - reflexivity.
  - repeat constructor.
Defined.

(** ** insert into an internal node *)

Lemma insert_internal (h : Store) (this : RTreeNode) (child : PropertyPtr) :
  is_leaf this = false ->
  insert h this child
  = updateBoundingBox h
      (mkRTreeNode (children this ++ [RTreeNode_new (bbox (h child)) false])
                   (leaf_properties this) (bounding_box this) false).
Proof. intro Hleaf. unfold insert. now rewrite Hleaf. Qed.

Lemma insert_internal_stored
      (h : Store) (this : RTreeNode) (child : PropertyPtr) :
  is_leaf this = false ->
  stored (insert h this child) = stored this
  /\ is_leaf (insert h this child) = false.
Proof.
  intro Hleaf. rewrite (insert_internal h this child Hleaf).
  rewrite updateBoundingBox_fold.
  cbn [children leaf_properties bounding_box is_leaf].
  split; [|reflexivity].
  destruct this as [ch props box leaf]. simpl in Hleaf. subst leaf.
  simpl. rewrite flat_map_app. simpl. now rewrite app_nil_r.
Qed.

(** X8.  [insert] on an internal node does not keep the pointer: the
    node gets one more child, an internal node without children that
    carries the bbox of the listing only, so the listings reachable below
    the node are the same as before. *)
Theorem insert_internal_drops_listing
        (h : Store) (this : RTreeNode) (child : PropertyPtr) :
  is_leaf this = false ->
  stored (insert h this child) = stored this
  /\ is_leaf (insert h this child) = false
  /\ leaf_properties (insert h this child) = leaf_properties this
  /\ children (insert h this child)
     = children this ++ [mkRTreeNode [] [] (bbox (h child)) false].
Proof.
  intro Hleaf.
  destruct (insert_internal_stored h this child Hleaf) as [Hstored Hleaf'].
  split; [exact Hstored|]. split; [exact Hleaf'|].
  rewrite (insert_internal h this child Hleaf), updateBoundingBox_fold.
  cbn [children leaf_properties]. split; reflexivity.
Qed.

Lemma insert_internal_drops_listing_witness :
  is_leaf tree_two_leaves = false
  /\ stored (insert store_mixed tree_two_leaves 1%nat) = [0%nat; 1%nat].
Proof.
  split; [reflexivity|].
  exact (proj1 (insert_internal_drops_listing store_mixed tree_two_leaves
                                              1%nat eq_refl)).
Defined.

Lemma fold_insert_internal (h : Store) (props : list PropertyPtr) :
  forall node, is_leaf node = false ->
          stored (fold_left (insert h) props node) = stored node
          /\ is_leaf (fold_left (insert h) props node) = false.
Proof.
  induction props as [|p props IH]; intros node Hleaf; simpl; [tauto|].
  destruct (insert_internal_stored h node p Hleaf) as (Hs & Hl).
  destruct (IH (insert h node p) Hl) as [Hs' Hl'].
  split; [congruence | exact Hl'].
Qed.

(** X9.  A node constructed as internal ([RTreeNode(box)], [leaf] left
    at its default) and filled through [insert] answers every query with
    nothing: [queryRecursive] returns the result vector as it was. *)
Theorem internal_node_returns_nothing
        (h : Store) (box : Rectangle) (props : list PropertyPtr)
        (range : Rectangle) (results : list PropertyPtr) :
  queryRecursive h (fold_left (insert h) props (RTreeNode_new box false))
                 range results
  = results.
Proof.
  rewrite queryRecursive_accumulates.
  destruct (queryRecursive h (fold_left (insert h) props
                                        (RTreeNode_new box false)) range [])
    as [|p l] eqn:Hq; [now rewrite app_nil_r|].
  exfalso.
  assert (Hin : In p (queryRecursive h
                        (fold_left (insert h) props (RTreeNode_new box false))
                        range [])) by (rewrite Hq; now left).
  apply queryRecursive_in_stored in Hin. destruct Hin as [Hin _].
  destruct (fold_insert_internal h props (RTreeNode_new box false) eq_refl)
    as [Hs _].
  rewrite Hs in Hin. exact Hin.
Qed.

(** X10.  After [insert] on an internal node the box of the node covers
    the bbox of the new listing, the old box and the box of every child,
    when none of these has a NaN coordinate. *)
Theorem insert_internal_covers
        (h : Store) (this : RTreeNode) (child : PropertyPtr) :
  is_leaf this = false ->
  no_nan (bounding_box this) = true ->
  Forall (fun c => no_nan (bounding_box c) = true) (children this) ->
  no_nan (bbox (h child)) = true ->
  covers (bounding_box (insert h this child)) (bbox (h child)) = true
  /\ covers (bounding_box (insert h this child)) (bounding_box this) = true
  /\ Forall (fun c => covers (bounding_box (insert h this child))
                             (bounding_box c) = true) (children this).
Proof.
  intros Hleaf Hbox Hch Hnew. rewrite (insert_internal h this child Hleaf).
  set (node := mkRTreeNode
                 (children this ++ [RTreeNode_new (bbox (h child)) false])
                 (leaf_properties this) (bounding_box this) false).
  assert (Hmem : member_boxes h node
                 = map bounding_box (children this) ++ [bbox (h child)]).
  { unfold member_boxes, node; simpl. now rewrite map_app. }
  rewrite updateBoundingBox_fold. cbn [bounding_box].
  change (bounding_box node) with (bounding_box this).
  destruct (fold_extend_box_covers (member_boxes h node) (bounding_box this))
    as [Hold Hall].
  - exact Hbox.
  - rewrite Hmem. apply Forall_app. split.
    + apply Forall_map. exact Hch.
    + now constructor.
  - rewrite Hmem in Hall, Hold |- *.
    apply Forall_app in Hall. destruct Hall as [Hc Hn].
    split; [now inversion Hn|]. split; [exact Hold|].
    now apply Forall_map in Hc.
Qed.

Lemma insert_internal_covers_witness :
  covers (bounding_box (insert store_mixed
                               (RTreeNode_new (mkRectangle 0 0 100 100) false)
                               1%nat))
         (mkRectangle 150 150 160 160) = true.
Proof.
  apply (insert_internal_covers store_mixed
           (RTreeNode_new (mkRectangle 0 0 100 100) false) 1%nat);
    try reflexivity.
  constructor.
Defined.



Lemma double_le_nan_l (a b : float) : PrimFloat.is_nan a = true -> Cpp.le a b = false.
Proof.
  intro Ha. apply not_true_iff_false. intro Hab.
  apply double_le_not_nan in Hab. destruct Hab as [Ha' _]. congruence.
Qed.

Lemma filter_filter_implies (A : Type) (f g : A -> bool) (l : list A) :
  (forall a, In a l -> f a = true -> g a = true) ->
  filter f (filter g l) = filter f l.
Proof.
  induction l as [|a l IH]; intro Himp; simpl; [reflexivity|].
  assert (IH' : filter f (filter g l) = filter f l).
  { apply IH. intros b Hb. apply Himp. now right. }
  destruct (g a) eqn:Hg; simpl.
  - now rewrite IH'.
  - destruct (f a) eqn:Hf; [|exact IH'].
    rewrite (Himp a (or_introl eq_refl) Hf) in Hg. discriminate.
Qed.

(** X2.  For rectangles with [x_min <= x_max] and [y_min <= y_max],
    [intersects] is true exactly when the two rectangles have a point in
    common, borders included. *)
Theorem intersects_iff_common_point (a b : Rectangle) :
  well_formed a = true -> well_formed b = true ->
  (intersects a b = true
   <-> exists x y : float, contains a x y = true /\ contains b x y = true).
Proof.
  unfold well_formed, contains. rewrite !andb_true_iff.
  intros [Wax Way] [Wbx Wby].
  destruct (double_le_not_nan _ _ Wax) as [Na1 Na2].
  destruct (double_le_not_nan _ _ Way) as [Na3 Na4].
  destruct (double_le_not_nan _ _ Wbx) as [Nb1 Nb2].
  destruct (double_le_not_nan _ _ Wby) as [Nb3 Nb4].
  rewrite intersects_coordinates, !gt_lt.
  split.
  - intros (Ix & IX & Iy & IY).
    exists (Cpp.std_max (x_min a) (x_min b)),
           (Cpp.std_max (y_min a) (y_min b)).
    unfold Cpp.std_max.
    pose proof (double_not_lt_le _ _ Nb2 Na1 Ix) as Hx1.
    pose proof (double_not_lt_le _ _ Na2 Nb1 IX) as Hx2.
    pose proof (double_not_lt_le _ _ Nb4 Na3 Iy) as Hy1.
    pose proof (double_not_lt_le _ _ Na4 Nb3 IY) as Hy2.
    destruct (Cpp.lt (x_min a) (x_min b)) eqn:Ex,
             (Cpp.lt (y_min a) (y_min b)) eqn:Ey;
      rewrite !andb_true_iff;
      repeat split;
      try assumption;
      try (now apply double_le_refl);
      try (now apply double_lt_le);
      try (now apply double_not_lt_le).
  - intros (x & y & Ha & Hb). rewrite !andb_true_iff in Ha, Hb.
    destruct Ha as [[[A1 A2] A3] A4], Hb as [[[B1 B2] B3] B4].
    repeat split; apply double_le_not_lt.
    + now apply double_le_trans with x.
    + now apply double_le_trans with x.
    + now apply double_le_trans with y.
    + now apply double_le_trans with y.
Qed.

Lemma intersects_iff_common_point_witness :
  well_formed (mkRectangle 0 0 1 1) = true
  /\ well_formed (mkRectangle 1 1 2 2) = true
  /\ exists x y : float,
      contains (mkRectangle 0 0 1 1) x y = true
      /\ contains (mkRectangle 1 1 2 2) x y = true.
Proof.
  split; [reflexivity|]. split; [reflexivity|].
  apply (proj1 (intersects_iff_common_point
                  (mkRectangle 0 0 1 1) (mkRectangle 1 1 2 2)
                  eq_refl eq_refl)).
  reflexivity.
Defined.

(** X3.  A rectangle whose four coordinates are NaN intersects every
    rectangle, in either order of the arguments. *)
Theorem intersects_nan_rectangle (a b : Rectangle) :
  PrimFloat.is_nan (x_min a) = true -> PrimFloat.is_nan (y_min a) = true ->
  PrimFloat.is_nan (x_max a) = true -> PrimFloat.is_nan (y_max a) = true ->
  intersects a b = true /\ intersects b a = true.
Proof.
  intros Nx Ny NX NY.
  assert (H : intersects a b = true).
  { apply intersects_coordinates. rewrite !gt_lt.
    repeat split;
      first [now apply double_lt_nan_r | now apply double_lt_nan_l]. }
  split; [exact H | now rewrite intersects_swap].
Qed.

Lemma intersects_nan_rectangle_witness :
  intersects (mkRectangle nan nan nan nan) (mkRectangle 30 30 40 40) = true
  /\ intersects (mkRectangle 30 30 40 40) (mkRectangle nan nan nan nan) = true.
Proof.
  apply (intersects_nan_rectangle (mkRectangle nan nan nan nan)
                                  (mkRectangle 30 30 40 40));
    reflexivity.
Defined.

(** ** Range queries on the index *)

(** X14.  No listing inside the initial extent is lost: when the root
    box (0,0)-(100,100) covers the bbox of every inserted listing, [query]
    returns exactly the matching listings in insertion order, for every
    range. *)
Theorem query_complete_within_extent
        (h : Store) (props : list PropertyPtr) (range : Rectangle) :
  Forall (fun p => covers initial_box (bbox (h p)) = true) props ->
  query h (insert_all h props) range = filter (matches h range) props.
Proof.
  intro Hall. rewrite query_insert_all.
  destruct (intersects initial_box range) eqn:Hroot; [reflexivity|].
  symmetry. apply filter_nil_iff. intros p Hp.
  destruct (matches h range p) eqn:Hm; [|reflexivity].
  rewrite Forall_forall in Hall. unfold matches in Hm.
  rewrite intersects_swap in Hm.
  rewrite (covers_keeps_intersection _ _ _ (Hall p Hp) Hm) in Hroot.
  discriminate.
Qed.

Lemma query_complete_within_extent_witness :
  query store_three (insert_all store_three [0; 1; 2]%nat)
        (mkRectangle 15 15 35 35) = [0; 2]%nat.
Proof.
  apply (query_complete_within_extent store_three [0; 1; 2]%nat
                                      (mkRectangle 15 15 35 35)).
  repeat constructor.
Defined.

Lemma matches_covers (h : Store) (big small : Rectangle) (p : PropertyPtr) :
  covers big small = true ->
  matches h small p = true -> matches h big p = true.
Proof. unfold matches. apply covers_keeps_intersection. Qed.

(** X15.  A larger range returns at least as much: when [big] covers
    [small], every listing [query] returns for [small] it also returns for
    [big]; and when [small] meets the root box, the result for [small] is
    the result for [big] filtered by [small]. *)
Theorem query_monotone_in_range
        (h : Store) (props : list PropertyPtr) (big small : Rectangle) :
  covers big small = true ->
  (forall p, In p (query h (insert_all h props) small) ->
        In p (query h (insert_all h props) big))
  /\ (intersects initial_box small = true ->
      query h (insert_all h props) small
      = filter (matches h small) (query h (insert_all h props) big)).
Proof.
  intro Hcov. rewrite !query_insert_all.
  assert (Hroot : intersects initial_box small = true ->
                  intersects initial_box big = true).
  { intro Hs. rewrite intersects_swap in Hs |- *.
    now apply (covers_keeps_intersection big small initial_box). }
  assert (Heq : intersects initial_box small = true ->
                filter (matches h small) props
                = filter (matches h small)
                         (if intersects initial_box big
                          then filter (matches h big) props else [])).
  { intro Hs. rewrite (Hroot Hs). symmetry. apply filter_filter_implies.
    intros p _. now apply matches_covers. }
  split.
  - destruct (intersects initial_box small) eqn:Hs; [|intros p []].
    intros p Hp. rewrite (Heq eq_refl) in Hp. now apply filter_In in Hp.
  - intro Hs. rewrite Hs. now apply Heq.
Qed.

Lemma query_monotone_in_range_witness :
  covers (mkRectangle 0 0 50 50) (mkRectangle 15 15 35 35) = true
  /\ query store_three (insert_all store_three [0; 1; 2]%nat)
           (mkRectangle 15 15 35 35)
     = filter (matches store_three (mkRectangle 15 15 35 35))
              (query store_three (insert_all store_three [0; 1; 2]%nat)
                     (mkRectangle 0 0 50 50)).
Proof.
  split; [reflexivity|].
  apply (proj2 (query_monotone_in_range store_three [0; 1; 2]%nat
                  (mkRectangle 0 0 50 50) (mkRectangle 15 15 35 35) eq_refl)).
  reflexivity.
Defined.

(** ** queryNearLocation *)

Lemma queryNearLocation_as_filter
      (h : Store) (t : RTree)
      (x y radius max_price min_area : float) (min_bedrooms : Z) :
  queryNearLocation h t x y radius max_price min_area min_bedrooms
  = filter (kept h x y radius max_price min_area min_bedrooms)
           (query h t (search_square x y radius)).
Proof.
  apply (fold_left_push_back
           PropertyPtr
           (kept h x y radius max_price min_area min_bedrooms)
           (visit_candidate h x y radius max_price min_area min_bedrooms)
           (visit_candidate_kept h x y radius max_price min_area min_bedrooms)
           (query h t (search_square x y radius)) []).
Qed.

(** X16.  Relaxing the attribute thresholds of [queryNearLocation]
    (a higher maximum price, a lower minimum area, fewer bedrooms) loses
    no result: the stricter answer is the relaxed answer filtered by the
    stricter thresholds, so it is a subsequence of it. *)
Theorem queryNearLocation_relax
        (h : Store) (t : RTree) (x y radius : float)
        (max_price max_price' min_area min_area' : float)
        (min_bedrooms min_bedrooms' : Z) :
  Cpp.le max_price max_price' = true ->
  Cpp.le min_area' min_area = true ->
  (min_bedrooms' <= min_bedrooms)%Z ->
  queryNearLocation h t x y radius max_price min_area min_bedrooms
  = filter (kept h x y radius max_price min_area min_bedrooms)
           (queryNearLocation h t x y radius max_price' min_area'
                              min_bedrooms').
Proof.
  intros Hp Ha Hb. rewrite !queryNearLocation_as_filter.
  symmetry. apply filter_filter_implies.
  intros p _. unfold kept. rewrite !andb_true_iff, !ge_le.
  intros [[[Hd Hprice] Harea] Hbed].
  repeat split.
  - exact Hd.
  - now apply double_le_trans with max_price.
  - now apply double_le_trans with min_area.
  - apply Z.leb_le in Hbed. apply Z.leb_le. lia.
Qed.

Lemma queryNearLocation_relax_witness :
  queryNearLocation store_3_and_7 (insert_all store_3_and_7 [0; 1]%nat)
                    0 0 5 100000 120 3
  = filter (kept store_3_and_7 0 0 5 100000 120 3)
           (queryNearLocation store_3_and_7
                              (insert_all store_3_and_7 [0; 1]%nat)
                              0 0 5 200000 0 0).
Proof.
  apply (queryNearLocation_relax store_3_and_7
           (insert_all store_3_and_7 [0; 1]%nat) 0 0 5 100000 200000 120 0
           3%Z 0%Z); [reflexivity | reflexivity | lia].
Defined.

(** X17.  [queryNearLocation] returns nothing when the radius, the
    maximum price or the minimum area is a NaN. *)
Theorem queryNearLocation_nan
        (h : Store) (t : RTree)
        (x y radius max_price min_area : float) (min_bedrooms : Z) :
  PrimFloat.is_nan radius = true \/ PrimFloat.is_nan max_price = true
  \/ PrimFloat.is_nan min_area = true ->
  queryNearLocation h t x y radius max_price min_area min_bedrooms = [].
Proof.
  intro Hnan. rewrite queryNearLocation_as_filter.
  apply filter_nil_iff. intros p _. unfold kept. rewrite ge_le.
  destruct Hnan as [Hn | [Hn | Hn]].
  - now rewrite (double_le_nan_r _ radius Hn).
  - rewrite (double_le_nan_r (price (h p)) max_price Hn).
    now rewrite andb_false_r.
  - rewrite (double_le_nan_l min_area (area (h p)) Hn).
    now rewrite andb_false_r.
Qed.

Lemma queryNearLocation_nan_witness :
  queryNearLocation store_three (insert_all store_three [0; 1; 2]%nat)
                    15 15 50 nan 0 0 = [].
Proof.
  apply (queryNearLocation_nan store_three
           (insert_all store_three [0; 1; 2]%nat) 15 15 50 nan 0 0%Z).
  right. left. reflexivity.
Defined.

(** X18.  On an index whose root is a leaf, the result of
    [queryNearLocation] before an insert is a prefix of the result of the
    same call after it; the insert adds the new listing at the end, or
    nothing. *)
Theorem queryNearLocation_prefix_after_insert
        (h : Store) (t : RTree) (p : PropertyPtr)
        (x y radius max_price min_area : float) (min_bedrooms : Z) :
  is_leaf (root t) = true ->
  exists tail : list PropertyPtr,
    queryNearLocation h (RTree_insert h t p)
                      x y radius max_price min_area min_bedrooms
    = queryNearLocation h t x y radius max_price min_area min_bedrooms ++ tail
    /\ (tail = [] \/ tail = [p]).
Proof.
  intro Hleaf. rewrite !queryNearLocation_as_filter.
  rewrite (query_after_insert_leaf h t p (search_square x y radius) Hleaf).
  rewrite filter_app.
  eexists. split; [reflexivity|].
  destruct (intersects (bounding_box (root t)) (search_square x y radius)
            && matches h (search_square x y radius) p); simpl.
  - destruct (kept h x y radius max_price min_area min_bedrooms p);
      [now right | now left].
  - now left.
Qed.

Lemma queryNearLocation_prefix_after_insert_witness :
  exists tail : list PropertyPtr,
    queryNearLocation store_3_and_7
                      (RTree_insert store_3_and_7
                                    (insert_all store_3_and_7 [0%nat]) 1%nat)
                      0 0 5 200000 0 0
    = queryNearLocation store_3_and_7 (insert_all store_3_and_7 [0%nat])
                        0 0 5 200000 0 0 ++ tail
    /\ (tail = [] \/ tail = [1%nat]).
Proof.
  apply (queryNearLocation_prefix_after_insert store_3_and_7
           (insert_all store_3_and_7 [0%nat]) 1%nat 0 0 5 200000 0 0%Z).
  reflexivity.
Defined.

(** ** The insert branch of main *)

Lemma property_eta (p : Property) :
  mkProperty (location p) (price p) (area p) (bedrooms p)
             (mkRectangle (x_min (bbox p)) (y_min (bbox p))
                          (x_max (bbox p)) (y_max (bbox p)))
  = p.
Proof. destruct p as [l pr ar bd [a b c d]]. reflexivity. Qed.

Lemma main_inserts_state (entered : list Property) :
  forall (objects : list Property) (held : list PropertyPtr),
    main_inserts
      (mkSession objects (mkRTree (mkRTreeNode [] held initial_box true)))
      entered
    = mkSession (objects ++ entered)
                (mkRTree (mkRTreeNode
                            []
                            (held ++ seq (List.length objects)
                                         (List.length entered))
                            initial_box true)).
Proof.
  induction entered as [|p entered IH]; intros objects held; simpl.
  - now rewrite !app_nil_r.
  - unfold main_inserts in *. simpl. unfold main_insert at 2. simpl.
    rewrite property_eta. unfold RTree_insert, insert; simpl.
    rewrite IH. rewrite <- !app_assoc, length_app. simpl.
    now rewrite Nat.add_1_r.
Qed.

(** X19.  Across the insert branches of a run of [main], every listing
    gets an address of its own: after the listings [entered] the objects
    made by [new] are those listings, the index holds the addresses
    0, 1, ..., n-1 in that order without repetition, each address points
    to the listing entered at that position, and no range query returns
    a listing twice. *)
Theorem main_inserts_fresh (entered : list Property) :
  heap (main_inserts main_start entered) = entered
  /\ root (tree (main_inserts main_start entered))
     = mkRTreeNode [] (seq 0 (List.length entered)) initial_box true
  /\ NoDup (leaf_properties (root (tree (main_inserts main_start entered))))
  /\ (forall (i : nat) (p : Property),
         nth_error entered i = Some p ->
         session_store (main_inserts main_start entered) i = p)
  /\ (forall a b c d : float,
         NoDup (main_query (main_inserts main_start entered) a b c d)).
Proof.
  unfold main_start, RTree_new, RTreeNode_new.
  rewrite main_inserts_state. simpl.
  split; [reflexivity|]. split; [reflexivity|]. split; [apply seq_NoDup|].
  split.
  - intros i p Hi. unfold session_store, store_of; simpl.
    now apply nth_error_nth.
  - intros a b c d. unfold main_query; simpl.
    rewrite query_leaf by reflexivity. simpl.
    destruct (intersects initial_box (mkRectangle a b c d));
      [|constructor].
    apply NoDup_filter, seq_NoDup.
Qed.

(** ** queryNearLocation against the specification *)

Lemma binary_round_sign (m : positive) (e : Z) :
  binary_round prec emax true m e = SFopp (binary_round prec emax false m e).
Proof.
  unfold binary_round.
  destruct (shl_align m e _) as [mz ez].
  unfold binary_round_aux.
  destruct (shr_fexp prec emax (Zpos mz) ez loc_Exact) as [mrs' e'].
  destruct (shr_fexp prec emax _ e' loc_Exact) as [mrs'' e''].
  destruct (shr_m mrs''); try reflexivity.
  destruct (e'' <=? emax - prec)%Z; reflexivity.
Qed.

(** The conversion of an [int] to a [double] gives the double that equals
    the integer. *)
Lemma int_to_double_exact (z : Z) :
  (- 2 ^ 63 < z < 2 ^ 63)%Z -> Cpp.int_to_double z = Z_to_double z.
Proof.
  intro Hz. unfold Cpp.int_to_double, Z_to_double.
  assert (Hw : Uint63.wB = (2 ^ 63)%Z) by reflexivity.
  destruct (Z.ltb_spec z 0) as [Hneg | Hpos].
  - rewrite <- (FloatAxioms.SF2Prim_Prim2SF
                  (- PrimFloat.of_uint63 (Uint63.of_Z (- z)))).
    f_equal. rewrite FloatAxioms.opp_spec, FloatAxioms.of_uint63_spec.
    rewrite Uint63.of_Z_spec, Z.mod_small by lia.
    destruct z as [|m|m]; try lia. simpl Z.opp.
    unfold binary_normalize. now rewrite binary_round_sign.
  - rewrite <- (FloatAxioms.SF2Prim_Prim2SF
                  (PrimFloat.of_uint63 (Uint63.of_Z z))) at 1.
    f_equal. rewrite FloatAxioms.of_uint63_spec.
    now rewrite Uint63.of_Z_spec, Z.mod_small by lia.
Qed.

Lemma kept_spec_kept
      (h : Store) (x y radius max_price min_area : float) (min_bedrooms : Z)
      (p : PropertyPtr) :
  distance_fits_int h x y p ->
  kept h x y radius max_price min_area min_bedrooms p
  = spec_kept h x y radius max_price min_area min_bedrooms p.
Proof.
  intros (z & Hz & Hrange).
  unfold kept, spec_kept, truncated_centroid_distance,
    spec_truncated_distance.
  destruct (centroid (bbox (h p))) as [cx cy].
  unfold integer_part in *. rewrite Hz.
  rewrite (double_to_int_in_range _ _ Hz Hrange).
  rewrite int_to_double_exact; [reflexivity|].
  unfold Cpp.INT_MIN, Cpp.INT_MAX in Hrange. lia.
Qed.

Lemma filter_agree (A : Type) (f g : A -> bool) (l : list A) :
  Forall (fun a => f a = g a) l -> filter f l = filter g l.
Proof.
  induction 1 as [|a l Ha _ IH]; simpl; [reflexivity|].
  now rewrite Ha, IH.
Qed.

(** C2, as stated, fails when a truncated distance does not fit an
    [int].  The listing of [store_far] is a candidate of the search of
    radius 5 around (0, 0); its truncated centroid distance is
    5000000000, above the radius, so the filter of the claim drops it;
    [queryNearLocation] returns it. *)
Lemma queryNearLocation_beyond_int_range :
  integer_part (euclidean_distance 0 0 5e9 0) = Some 5000000000%Z
  /\ (exact_value 5 < inject_Z 5000000000)%Q
  /\ spec_truncated_distance 0 0 (bbox (store_far 0%nat)) = 5e9%float
  /\ Cpp.le 5e9 5 = false
  /\ filter (spec_kept store_far 0 0 5 200000 0 0)
            (query store_far (insert_all store_far [0%nat])
                   (search_square 0 0 5)) = []
  /\ queryNearLocation store_far (insert_all store_far [0%nat])
                       0 0 5 200000 0 0 = [0%nat].
Proof. repeat split; vm_compute; reflexivity. Qed.

(** C2, amended.  For every index and every call
    [queryNearLocation(x, y, radius, max_price, min_area, min_bedrooms)]
    in which the truncated centroid distance of every candidate fits a
    32-bit [int], the result is the result of [query] on the square
    (x-radius, y-radius, x+radius, y+radius), filtered to exactly the
    candidates with truncated centroid distance <= radius, price <=
    max_price, area >= min_area and bedrooms >= min_bedrooms, in the
    order in which [query] produced them. *)
Theorem queryNearLocation_filters_query_within_int
        (h : Store) (t : RTree)
        (x y radius max_price min_area : float) (min_bedrooms : Z) :
  Forall (distance_fits_int h x y) (query h t (search_square x y radius)) ->
  queryNearLocation h t x y radius max_price min_area min_bedrooms
  = filter (spec_kept h x y radius max_price min_area min_bedrooms)
           (query h t (search_square x y radius)).
Proof.
  intro Hfit. rewrite queryNearLocation_as_filter.
  apply filter_agree.
  apply Forall_forall. intros p Hp.
  apply kept_spec_kept. rewrite Forall_forall in Hfit. now apply Hfit.
Qed.

Lemma queryNearLocation_filters_query_within_int_witness :
  Forall (distance_fits_int store_3_and_7 0 0)
         (query store_3_and_7 (insert_all store_3_and_7 [0; 1]%nat)
                (search_square 0 0 5))
  /\ queryNearLocation store_3_and_7 (insert_all store_3_and_7 [0; 1]%nat)
                       0 0 5 200000 0 0
     = filter (spec_kept store_3_and_7 0 0 5 200000 0 0)
              (query store_3_and_7 (insert_all store_3_and_7 [0; 1]%nat)
                     (search_square 0 0 5)).
Proof.
  assert (Hfit : Forall (distance_fits_int store_3_and_7 0 0)
                        (query store_3_and_7
                               (insert_all store_3_and_7 [0; 1]%nat)
                               (search_square 0 0 5))).
  { change (Forall (distance_fits_int store_3_and_7 0 0) [0; 1]%nat).
    constructor; [|constructor; [|constructor]].
    - exists 3%Z. split; [reflexivity|]. unfold Cpp.INT_MIN, Cpp.INT_MAX. lia.
    - exists 7%Z. split; [reflexivity|]. unfold Cpp.INT_MIN, Cpp.INT_MAX. lia. }
  split; [exact Hfit|].
  exact (queryNearLocation_filters_query_within_int
           store_3_and_7 (insert_all store_3_and_7 [0; 1]%nat)
           0 0 5 200000 0 0%Z Hfit).
Defined.
